(** * SmogEmissionsClassifier: the logistic-regression model

    A shallow embedding of [src/models/logistic-regression.js] and the
    properties of its training loop, cost history, learning-rate
    controller, standardisation and prediction.

    Numbers.  The class computes with the tensor library's float32
    kernels and with JavaScript's own float64 arithmetic.  Both are kept
    abstract: the class [Scalar] lists the scalar operations the source
    uses, tensor kernels ([t_add], [t_sigmoid], ...) apart from JavaScript
    number arithmetic ([js_div], [js_gt], ...).  Every structural property
    is proved for all interpretations of these operations.  Properties
    that compare the code with a formula of real arithmetic are proved
    under the laws they need ([StrictGreater], [ExactScalar]), and the
    real numbers with one more value for what is no real number ([xreal])
    are the interpretation of the concrete training run.

    Tensors.  A rank-2 tensor is the list of its rows, a rank-1 tensor a
    list of numbers.  The operations are total on lists and agree with
    the library on operands of compatible shapes (a rectangular feature
    array with at least one row, labels with one column and as many
    rows).  On operands of other shapes the library broadcasts a
    dimension of size 1 or throws, where the list operations cut to the
    shorter operand: these cases are not modelled, and the theorems on
    [gradientDescent], [recordCost], [predict] and [test] state the
    shapes they are about.  The range check of [slice] is written out.

    Objects.  The options object is shared between the caller and the
    model, so option objects live in a heap ([gmap loc Options]) and the
    model holds a location.  A call that does not return normally (the
    library throws, or a loop never ends) yields [None]. *)

From Stdlib Require Import ZArith QArith List Lia Ascii.
From Stdlib Require Import Reals Qreals Lra.
From stdpp Require Import base option list gmap strings sorting.

#[local] Open Scope Z_scope.

(** ** Scalar operations of the tensor library and of JavaScript *)

Class Scalar (F : Type) := {
  (** the number a numeric literal or an integer denotes *)
  lit : Q -> F;
  (** [ToNumber(undefined)] *)
  nan : F;
  (** elementwise kernels of the tensor library *)
  t_add : F -> F -> F;
  t_sub : F -> F -> F;
  t_mul : F -> F -> F;
  t_div : F -> F -> F;
  t_pow : F -> F -> F;
  t_sigmoid : F -> F;
  t_log : F -> F;
  t_abs : F -> F;
  t_greater : F -> F -> bool;
  (** JavaScript arithmetic on numbers: [-], [*], [/] and [>] *)
  js_sub : F -> F -> F;
  js_mul : F -> F -> F;
  js_div : F -> F -> F;
  js_gt : F -> F -> bool
}.

(** The value of [Math.floor(rows / batchSize)] and the like: an integer,
    [Infinity] or [NaN]. *)
Inductive jsint := Fin (z : Z) | PInf | NaN.

(** A rank-2 tensor as the list of its rows, a rank-1 tensor as a list. *)
Definition matrix (F : Type) := list (list F).
Definition vector (F : Type) := list F.

Section Tensors.
Context {F : Type} `{Scalar F}.

Definition of_nat (n : nat) : F := lit (inject_Z (Z.of_nat n)).
Definition zero : F := lit 0%Q.
Definition one : F := lit 1%Q.

(** [shape[0]] and [shape[1]] *)
Definition nrows (m : matrix F) : nat := length m.
Definition ncols (m : matrix F) : nat :=
  match m with [] => 0%nat | r :: _ => length r end.

(** [zeros([k, 1])] and [ones([k, 1])] *)
Definition zeros (k : nat) : matrix F := repeat [zero] k.
Definition ones (k : nat) : matrix F := repeat [one] k.

(** elementwise kernel applied to one tensor *)
Definition mmap (f : F -> F) (m : matrix F) : matrix F := map (map f) m.

(** elementwise kernel on two rank-2 tensors of the same shape *)
Definition mzip (f : F -> F -> F) (a b : matrix F) : matrix F :=
  zip_with (zip_with f) a b.

(** rank-2 tensor against a rank-1 tensor, broadcast along the rows *)
Definition mrow (f : F -> F -> F) (m : matrix F) (v : vector F) : matrix F :=
  map (fun row => zip_with f row v) m.

(** rank-2 tensor against a number *)
Definition mscalar (f : F -> F -> F) (m : matrix F) (x : F) : matrix F :=
  map (map (fun a => f a x)) m.

Definition vsum (v : vector F) : F := fold_right t_add zero v.
Definition dot (u v : vector F) : F := vsum (zip_with t_mul u v).

Definition column (j : nat) (m : matrix F) : vector F :=
  map (fun row => nth j row zero) m.

Definition transpose (m : matrix F) : matrix F :=
  map (fun j => column j m) (seq 0 (ncols m)).

Definition matMul (a b : matrix F) : matrix F :=
  map (fun row => map (dot row) (transpose b)) a.

(** [a.concat(b, 1)] for tensors with as many rows *)
Definition concat1 (a b : matrix F) : matrix F := zip_with app a b.

(** [moments(x, 0)]: mean and variance of every column *)
Definition col_mean (c : vector F) : F := t_div (vsum c) (of_nat (length c)).
Definition col_variance (c : vector F) : F :=
  let mu := col_mean c in
  col_mean (map (fun x => let d := t_sub x mu in t_mul d d) c).
Definition moments0 (x : matrix F) : vector F * vector F :=
  (map col_mean (transpose x), map col_variance (transpose x)).

(** [x.slice([start, 0], [size, -1])]: [size] rows from row [start];
    a size of [-1] takes the rest, a range outside the tensor throws. *)
Definition slice_rows (start size : Z) (x : matrix F) : option (matrix F) :=
  if (0 <=? start) && (start <=? Z.of_nat (length x)) then
    if size =? -1 then Some (drop (Z.to_nat start) x)
    else if (0 <=? size) && (start + size <=? Z.of_nat (length x))
         then Some (take (Z.to_nat size) (drop (Z.to_nat start) x))
         else None
  else None.

(** [x.sum()] over all entries, and [x.arraySync()[0][0]] *)
Definition msum (x : matrix F) : F := vsum (map vsum x).
Definition entry00 (x : matrix F) : option F := r ← x !! 0%nat; r !! 0%nat.

(** [Math.floor(rows / batchSize)] *)
Definition floor_div (rows : nat) (batchSize : option Z) : jsint :=
  match batchSize with
  | None => NaN
  | Some b =>
      if b =? 0 then (if Z.of_nat rows =? 0 then NaN else PInf)
      else Fin (Z.of_nat rows / b)
  end.

(** [i < n] for an integer [i] and a property that may be absent *)
Definition lt_prop (i : Z) (n : option Z) : bool :=
  match n with None => false | Some n => i <? n end.

Definition to_number (x : option F) : F := default nan x.
End Tensors.

(** ** The model object and the options object *)

Definition loc := nat.

Section Model.
Context {F : Type} `{Scalar F}.

(** A JavaScript options object: every property may be absent. *)
Record Options := mkOptions {
  learningRate : option F;
  iterations : option Z;
  batchSize : option Z;
  decisionBoundary : option F
}.

(** The fields of [this].  [options] holds a reference; [mean] and
    [variance] are [undefined] until [standardize] has run. *)
Record Model := mkModel {
  features : matrix F;
  labels : matrix F;
  options : option loc;
  costHistory : list F;
  weights : matrix F;
  mean : option (vector F);
  variance : option (vector F)
}.

#[local] Abbreviation heap := (gmap loc Options).

Definition set_weights (w : matrix F) (m : Model) : Model :=
  mkModel (features m) (labels m) (options m) (costHistory m) w
          (mean m) (variance m).
Definition set_costHistory (c : list F) (m : Model) : Model :=
  mkModel (features m) (labels m) (options m) c (weights m)
          (mean m) (variance m).
Definition set_moments (mu v : vector F) (m : Model) : Model :=
  mkModel (features m) (labels m) (options m) (costHistory m) (weights m)
          (Some mu) (Some v).
Definition set_learningRate (x : F) (o : Options) : Options :=
  mkOptions (Some x) (iterations o) (batchSize o) (decisionBoundary o).

(** [this.options], dereferenced *)
Definition this_options (h : heap) (m : Model) : option Options :=
  l ← options m; h !! l.

(** The object literal of the constructor's default parameter. *)
Definition default_options : Options :=
  mkOptions (Some (lit 0.1%Q)) (Some 1000) (Some 1) (Some (lit 0.5%Q)).

(** *** standardize *)
Definition standardize (m : Model) (x : matrix F) : Model * matrix F :=
  let '(mu, v) := moments0 x in
  (set_moments mu v m,
   mrow t_div (mrow t_sub x mu) (map (fun a => t_pow a (lit 0.5%Q)) v)).

(** *** preprocessFeatures *)
Definition preprocessFeatures (m : Model) (x : matrix F) : Model * matrix F :=
  let '(m1, x1) :=
    match mean m, variance m with
    | Some mu, Some v =>
        (m, mrow t_div (mrow t_sub x mu)
              (map (fun a => t_pow a (lit 0.5%Q)) v))
    | _, _ => standardize m x
    end in
  let onesColumn := ones (nrows x1) in
  (m1, concat1 onesColumn x1).

(** *** constructor

    [opts] is the third argument: [None] when the caller leaves it out,
    and then the default object is created afresh. *)
Definition blank : Model := mkModel [] [] None [] [] None None.

Definition constructor (h : heap) (x y : matrix F) (opts : option loc)
  : heap * Model :=
  let '(h0, l) :=
    match opts with
    | Some l => (h, l)
    | None => let l := fresh (dom h) in (<[l := default_options]> h, l)
    end in
  let '(m1, fx) := preprocessFeatures blank x in
  (h0, mkModel fx y (Some l) [] (zeros (ncols fx)) (mean m1) (variance m1)).

(** *** gradientDescent *)
Definition gradientDescent (h : heap) (m : Model) (x y : matrix F)
  : option Model :=
  let currentPredictions := mmap t_sigmoid (matMul x (weights m)) in
  let differences := mzip t_sub currentPredictions y in
  let gradients :=
    mscalar t_div (matMul (transpose x) differences) (of_nat (nrows x)) in
  o ← this_options h m;
  lr ← learningRate o;
  Some (set_weights (mzip t_sub (weights m) (mscalar t_mul gradients lr)) m).

(** *** recordCost

    [cost_of] is the value of [cost]: the [0][0] entry of the tensor that
    the cross-entropy expression yields. *)
Definition cost_of (m : Model) : option F :=
  let predictions := mmap t_sigmoid (matMul (features m) (weights m)) in
  let termOne := matMul (transpose (labels m)) (mmap t_log predictions) in
  let termTwo :=
    matMul
      (transpose (mscalar t_add (mscalar t_mul (labels m) (lit (-1)%Q)) one))
      (mmap t_log (mscalar t_add (mscalar t_mul predictions (lit (-1)%Q)) one))
  in
  entry00
    (mscalar t_mul
       (mscalar t_div (mzip t_add termOne termTwo) (of_nat (nrows (features m))))
       (lit (-1)%Q)).

Definition recordCost (m : Model) : option Model :=
  cost ← cost_of m;
  Some (set_costHistory (cost :: costHistory m) m).

(** *** optimizeLearningRate *)
Definition optimizeLearningRate (h : heap) (m : Model) : option (heap * Model) :=
  if (length (costHistory m) <? 2)%nat then Some (h, m)
  else
    c0 ← costHistory m !! 0%nat;
    c1 ← costHistory m !! 1%nat;
    l ← options m;
    o ← h !! l;
    if js_gt c0 c1
    then Some (<[l := set_learningRate
                        (js_div (to_number (learningRate o)) (lit 2%Q)) o]> h, m)
    else Some (<[l := set_learningRate
                        (js_mul (to_number (learningRate o)) (lit 1.05%Q)) o]> h, m).

(** *** train *)

(** One pass of the body of the inner loop, for batch index [j]. *)
Definition batch_step (h : heap) (j : Z) (m : Model) : option Model :=
  o ← this_options h m;
  bs ← batchSize o;
  let startIndex := j * bs in
  featureSlice ← slice_rows startIndex bs (features m);
  labelSlice ← slice_rows startIndex bs (labels m);
  gradientDescent h m featureSlice labelSlice.

(** [for (let j = j0; j < j0 + k; j++)] *)
Fixpoint batch_iter (k : nat) (h : heap) (j : Z) (m : Model) : option Model :=
  match k with
  | O => Some m
  | S k' => m' ← batch_step h j m; batch_iter k' h (j + 1) m'
  end.

(** The inner loop: [j < NaN] is false at once, [j < Infinity] never
    fails, so that loop has no normal exit. *)
Definition batch_loop (batchQuantity : jsint) (h : heap) (m : Model)
  : option Model :=
  match batchQuantity with
  | NaN => Some m
  | PInf => None
  | Fin q => batch_iter (Z.to_nat q) h 0 m
  end.

(** The body of the outer loop. *)
Definition epoch (batchQuantity : jsint) (h : heap) (m : Model)
  : option (heap * Model) :=
  m1 ← batch_loop batchQuantity h m;
  m2 ← recordCost m1;
  optimizeLearningRate h m2.

(** The outer loop reads [this.options.iterations] before every pass;
    [fuel] bounds the number of passes, and [train] starts with as much
    as the loop needs ([epoch_loop_after_epochs]). *)
Fixpoint epoch_loop (fuel : nat) (batchQuantity : jsint) (i : Z)
    (h : heap) (m : Model) : option (heap * Model) :=
  o ← this_options h m;
  if lt_prop i (iterations o) then
    match fuel with
    | O => None
    | S fuel' =>
        '(h', m') ← epoch batchQuantity h m;
        epoch_loop fuel' batchQuantity (i + 1) h' m'
    end
  else Some (h, m).

Definition train (h : heap) (m : Model) : option (heap * Model) :=
  o ← this_options h m;
  let batchQuantity := floor_div (nrows (features m)) (batchSize o) in
  epoch_loop (Z.to_nat (default 0 (iterations o))) batchQuantity 0 h m.

(** *** predict *)
Definition predict (h : heap) (m : Model) (observations : matrix F)
  : option (Model * matrix F) :=
  let '(m1, processedObservations) := preprocessFeatures m observations in
  o ← this_options h m1;
  db ← decisionBoundary o;
  Some (m1,
        map (map (fun p => if t_greater p db then one else zero))
            (mmap t_sigmoid (matMul processedObservations (weights m1)))).

(** *** test *)
Definition test (h : heap) (m : Model) (testFeatures testLabels : matrix F)
  : option (Model * F) :=
  '(m1, predictions) ← predict h m testFeatures;
  let incorrectPredictions :=
    msum (mmap t_abs (mzip t_sub predictions testLabels)) in
  Some (m1,
        js_div (js_sub (of_nat (nrows predictions)) incorrectPredictions)
               (of_nat (nrows predictions))).
End Model.

(** ** Laws of the scalar operations

    No number is greater than itself; this holds for floating-point
    numbers as well, NaN included. *)
Class StrictGreater (F : Type) `{Scalar F} := {
  t_greater_irrefl : forall a : F, t_greater a a = false;
  js_gt_irrefl : forall a : F, js_gt a a = false
}.

(** The identities of real arithmetic by which the code's expressions
    equal the formulas of the specification.  Floating-point kernels
    round and need not satisfy the last two. *)
Class ExactScalar (F : Type) `{Scalar F} := {
  t_mul_comm : forall a b : F, t_mul a b = t_mul b a;
  t_one_minus : forall y : F, t_add (t_mul y (lit (-1)%Q)) one = t_sub one y;
  t_neg_mean : forall s n : F,
    t_mul (t_div s n) (lit (-1)%Q) = t_mul (t_sub zero (t_div one n)) s
}.

(** ** The real numbers as scalars

    [NotReal] stands for the values of floating-point arithmetic that are
    no real number (NaN and the infinities) and for the results this
    interpretation does not determine: the quotient by zero, the logarithm
    and the power of a number that is not positive, and every operation on
    [NotReal].  A comparison with [NotReal] is false. *)
Inductive xreal := Real (r : R) | NotReal.

Module XReal.
Definition lift1 (f : R -> R) (x : xreal) : xreal :=
  match x with Real a => Real (f a) | NotReal => NotReal end.

Definition lift2 (f : R -> R -> R) (x y : xreal) : xreal :=
  match x, y with Real a, Real b => Real (f a b) | _, _ => NotReal end.

Definition div (x y : xreal) : xreal :=
  match x, y with
  | Real a, Real b => if Req_dec_T b 0 then NotReal else Real (a / b)
  | _, _ => NotReal
  end.

Definition positive1 (f : R -> R) (x : xreal) : xreal :=
  match x with
  | Real a => if Rlt_dec 0 a then Real (f a) else NotReal
  | NotReal => NotReal
  end.

Definition pow (x y : xreal) : xreal :=
  match y with
  | Real b => positive1 (fun a => Rpower a b) x
  | NotReal => NotReal
  end.

(** the logistic function *)
Definition sg (z : R) : R := (1 / (1 + exp (- z)))%R.
Definition sigmoid : xreal -> xreal := lift1 sg.

Definition gt (x y : xreal) : bool :=
  match x, y with
  | Real a, Real b => if Rgt_dec a b then true else false
  | _, _ => false
  end.
End XReal.

Arguments XReal.sg : simpl never.

#[export] Instance xreal_scalar : Scalar xreal := {
  lit q := Real (Q2R q);
  nan := NotReal;
  t_add := XReal.lift2 Rplus;
  t_sub := XReal.lift2 Rminus;
  t_mul := XReal.lift2 Rmult;
  t_div := XReal.div;
  t_pow := XReal.pow;
  t_sigmoid := XReal.sigmoid;
  t_log := XReal.positive1 ln;
  t_abs := XReal.lift1 Rabs;
  t_greater := XReal.gt;
  js_sub := XReal.lift2 Rminus;
  js_mul := XReal.lift2 Rmult;
  js_div := XReal.div;
  js_gt := XReal.gt
}.

Arguments Options F : clear implicits.
Arguments Model F : clear implicits.

(** The heap of option objects. *)
Abbreviation heap F := (gmap loc (Options F)) (only parsing).

(** ** Formulas of the specification *)

Section Formulas.
Context {F : Type} `{Scalar F}.

(** [-(1/n) * (y^T * log p + (1 - y)^T * log (1 - p))] with
    [p = sigmoid (X * w)], for the label column [y] and the weight column
    [w]. *)
Definition cross_entropy (X : matrix F) (y w : vector F) : F :=
  let p := map (fun row => t_sigmoid (dot row w)) X in
  t_mul (t_sub zero (t_div one (of_nat (nrows X))))
        (t_add (dot y (map t_log p))
               (dot (map (t_sub one) y) (map (fun q => t_log (t_sub one q)) p))).

(** [(x - mean) / sqrt(variance)] on every column, behind a column of ones *)
Definition standardized (mu v : vector F) (x : matrix F) : matrix F :=
  concat1 (ones (nrows x))
    (mrow t_div (mrow t_sub x mu) (map (fun a => t_pow a (lit 0.5%Q)) v)).

(** The batches of one epoch: rows [j * bs .. (j + 1) * bs) of the
    features and of the labels, for [j = 0 .. count - 1]. *)
Definition rows_of (j bs : nat) (x : matrix F) : matrix F :=
  take bs (drop (j * bs) x).
Definition batches (count bs : nat) (X y : matrix F)
  : list (matrix F * matrix F) :=
  map (fun j => (rows_of j bs X, rows_of j bs y)) (seq 0 count).

(** Gradient steps on a list of batches, in the order of the list. *)
Fixpoint descend (h : heap F) (m : Model F) (bs : list (matrix F * matrix F))
  : option (Model F) :=
  match bs with
  | [] => Some m
  | (x, y) :: rest => m' ← gradientDescent h m x y; descend h m' rest
  end.

(** The state after [k] passes of the outer loop's body. *)
Fixpoint after_epochs (k : nat) (bq : jsint) (h : heap F) (m : Model F)
  : option (heap F * Model F) :=
  match k with
  | O => Some (h, m)
  | S k' => '(h', m') ← after_epochs k' bq h m; epoch bq h' m'
  end.

(** The cost recorded at the end of pass [i] (counted from 0) of a [train]
    call that starts in [(h, m)]: the cross-entropy cost of the model as it
    is after [i + 1] passes. *)
Definition epoch_cost (bq : jsint) (h : heap F) (m : Model F) (i : nat)
  : option F :=
  '(_, m') ← after_epochs (S i) bq h m; cost_of m'.

(** What a call of a method may do to the heap and the model.
    [standardize] is the helper of [preprocessFeatures] and no entry point
    of its own. *)
Inductive call : heap F * Model F -> heap F * Model F -> Prop :=
| call_train h m h' m' :
    train h m = Some (h', m') -> call (h, m) (h', m')
| call_predict h m obs m' out :
    predict h m obs = Some (m', out) -> call (h, m) (h, m')
| call_test h m x y m' acc :
    test h m x y = Some (m', acc) -> call (h, m) (h, m')
| call_preprocessFeatures h m x m' out :
    preprocessFeatures m x = (m', out) -> call (h, m) (h, m')
| call_gradientDescent h m x y m' :
    gradientDescent h m x y = Some m' -> call (h, m) (h, m')
| call_recordCost h m m' :
    recordCost m = Some m' -> call (h, m) (h, m')
| call_optimizeLearningRate h m h' m' :
    optimizeLearningRate h m = Some (h', m') -> call (h, m) (h', m').

(** Any number of calls, one after the other. *)
Inductive calls (s : heap F * Model F) : heap F * Model F -> Prop :=
| calls_refl : calls s s
| calls_step s2 s3 : calls s s2 -> call s2 s3 -> calls s s3.

(** A tensor with one column. *)
Definition is_column (x : matrix F) : Prop :=
  Forall (fun r => length r = 1%nat) x.

(** The shapes of a model built from a feature array with at least one
    row and a label column with as many rows. *)
Definition well_shaped (m : Model F) : Prop :=
  features m <> [] /\
  Forall (fun r => r <> []) (features m) /\
  length (labels m) = length (features m) /\
  is_column (labels m) /\
  ncols (weights m) = 1%nat.

(** Two models that differ in their weights and cost history at most. *)
Definition same_data (m m' : Model F) : Prop :=
  features m' = features m /\ labels m' = labels m /\
  options m' = options m /\
  mean m' = mean m /\ variance m' = variance m.

(** Two heaps that differ in the [learningRate] of the object at [l] at
    most, and that property is not lost. *)
Definition same_but_rate (l : loc) (h h' : heap F) : Prop :=
  (forall l', l' <> l -> h' !! l' = h !! l') /\
  (forall o, h !! l = Some o ->
     exists x,
       h' !! l = Some (mkOptions x (iterations o) (batchSize o)
                                 (decisionBoundary o)) /\
       (is_Some (learningRate o) -> is_Some x)).

(** The probability [predict] computes for one raw observation [r]: the
    sigmoid of the standardized row, behind a 1, times the weights. *)
Definition probability (mu v w : vector F) (r : vector F) : F :=
  t_sigmoid
    (dot (one :: zip_with t_div (zip_with t_sub r mu)
                   (map (fun a => t_pow a (lit 0.5%Q)) v)) w).

(** The label for a probability [p]: 1.0 if [p > boundary], else 0.0. *)
Definition classify (boundary p : F) : F :=
  if t_greater p boundary then one else zero.
End Formulas.

(** ** A training run

    Two observations of one feature, [-1] with label 0 and [1] with label
    1, and the caller's options object
    [{learningRate: 1, iterations: 2, batchSize: 2, decisionBoundary: 0.5}]
    at location 0 of the heap. *)
Module Run.
Import XReal.
#[local] Open Scope R_scope.

Definition x : matrix xreal := [[lit (-1)%Q]; [lit 1%Q]].
Definition y : matrix xreal := [[lit 0%Q]; [lit 1%Q]].
Definition caller_options : Options xreal :=
  mkOptions (Some (lit 1%Q)) (Some 2%Z) (Some 2%Z) (Some (lit 0.5%Q)).
Definition h0 : heap xreal := {[ 0%nat := caller_options ]}.

(** An options object without [iterations], in a heap of its own. *)
Definition partial_options : Options xreal :=
  mkOptions (Some (lit 1%Q)) None (Some 2%Z) (Some (lit 0.5%Q)).
Definition h_partial : heap xreal := {[ 0%nat := partial_options ]}.

(** The model the constructor builds, with weights [a] and [b] and the
    cost history [costs]: mean 0 and variance 1, so the standardized
    feature is the raw one. *)
Definition std_x : matrix xreal := [[Real 1; Real (-1)]; [Real 1; Real 1]].
Definition std_y : matrix xreal := [[Real 0]; [Real 1]].
Definition model (a b : R) (costs : list xreal) : Model xreal :=
  mkModel std_x std_y (Some 0%nat) costs [[Real a]; [Real b]]
          (Some [Real 0]) (Some [Real 1]).

(** The weights after one gradient step on the one batch, with learning
    rate [r], and the cost at weights [a], [b]. *)
Definition step_a (a b r : R) : R :=
  a - (sg (a - b) + (sg (a + b) - 1)) / 2 * r.
Definition step_b (a b r : R) : R :=
  b - (- sg (a - b) + (sg (a + b) - 1)) / 2 * r.
Definition cost (a b : R) : R :=
  - ((ln (sg (a + b)) + ln (1 - sg (a - b))) / 2).

(** The two passes of the run. *)
Definition a1 : R := step_a 0 0 1.
Definition b1 : R := step_b 0 0 1.
Definition a2 : R := step_a a1 b1 1.
Definition b2 : R := step_b a1 b1 1.
Definition cost1 : R := cost a1 b1.
Definition cost2 : R := cost a2 b2.

(** The heap after the run: the caller's object with another rate. *)
Definition h2 : heap xreal :=
  <[ 0%nat := mkOptions (Some (Real (1 * (21 / 20)))) (Some 2%Z) (Some 2%Z)
                        (Some (lit 0.5%Q)) ]> h0.

(** The models after the first and after the second pass. *)
Definition m0 : Model xreal := model 0 0 [].
Definition m1 : Model xreal := model a1 b1 [Real cost1].
Definition m2 : Model xreal := model a2 b2 [Real cost2; Real cost1].
End Run.

(** ** Further formulas on the model *)

Section MoreFormulas.
Context {F : Type} `{Scalar F}.

(** The learning rate that a cost history with the most recent cost first
    determines, from the rate [lr] before the first cost: every cost after
    the first one halves the rate if it exceeds the cost before it, and
    multiplies it by 1.05 if not. *)
Fixpoint rate_of (costs : list F) (lr : F) : F :=
  match costs with
  | recent :: rest =>
      match rest with
      | previous :: _ =>
          if js_gt recent previous then js_div (rate_of rest lr) (lit 2%Q)
          else js_mul (rate_of rest lr) (lit 1.05%Q)
      | [] => lr
      end
  | [] => lr
  end.

(** [costHistory.reverse()], as the plotting script calls it: the array is
    reversed in place and is itself the value of the call. *)
Definition reverse_costHistory (m : Model F) : Model F * list F :=
  (set_costHistory (reverse (costHistory m)) m, reverse (costHistory m)).

(** A tensor of [k] rows and one column. *)
Definition column_of (k : nat) (x : matrix F) : Prop :=
  length x = k /\ is_column x.
End MoreFormulas.

Section Sessions.
Context {F : Type} `{Scalar F}.

(** The use the scripts make of a model: [train], [predict] and [test],
    any number of times. *)
Inductive session (s : heap F * Model F) : heap F * Model F -> Prop :=
| session_start : session s s
| session_train h m h' m' :
    session s (h, m) -> train h m = Some (h', m') -> session s (h', m')
| session_predict h m obs m' out :
    session s (h, m) -> predict h m obs = Some (m', out) -> session s (h, m')
| session_test h m x y m' acc :
    session s (h, m) -> test h m x y = Some (m', acc) -> session s (h, m').
End Sessions.

(** ** Counting wrong predictions, in the real numbers *)

#[export] Instance xreal_eq_dec : EqDecision xreal.
Proof.
  intros [a|] [b|]; try (right; discriminate); [|by left].
  destruct (Req_dec_T a b) as [->|N]; [by left|right; congruence].
Defined.

(** The number of rows in which the predicted labels [p] differ from the
    labels [y]. *)
Definition mismatches (p y : matrix xreal) : nat :=
  length (filter (fun py => py.1 <> py.2) (zip p y)).

(** A label row: one entry, 0 or 1. *)
Definition binary_row (r : vector xreal) : Prop :=
  r = [lit 0%Q] \/ r = [lit 1%Q].

(** * The CSV loader ([utils/csv-loader.js])

    The file is given by its content.  Numbers are kept abstract, with
    JavaScript's [parseFloat] and the NaN test as parameters, and so is
    [shuffleSeed.shuffle(_, 'phrase')].  A cell of the table is a string,
    a number, or [undefined]. *)

Inductive cell (N : Type) := CStr (s : string) | CNum (x : N) | CUndefined.
Arguments CStr {N} s.
Arguments CNum {N} x.
Arguments CUndefined {N}.

(** The values of [splitTest] that the loader tells apart: [false], [true]
    and an integer. *)
Inductive split_flag := SplitFalse | SplitTrue | SplitSize (k : Z).

Module Csv.
Section Loader.
Context {N : Type}.
Variable parseFloat : string -> N.
Variable isNaN : N -> bool.
Variable shuffleSeed : forall A : Type, list A -> list A.

(** The second argument of the loader; an absent property is [None].
    [converters] maps a column name to the function stored under it as
    a property of the object's own; the members that every object
    inherits ([toString] and the like) are not modelled, so the header
    row is taken to name none of them. *)
Record Options := mkOptions {
  dataColumns : option (list string);
  labelColumns : option (list string);
  converters : option (string -> option (string -> cell N));
  shuffle : option bool;
  splitTest : option split_flag
}.

(** The object the loader returns; the test keys exist after a split. *)
Record Loaded := mkLoaded {
  features : list (list (cell N));
  labels : list (list (cell N));
  testFeatures : option (list (list (cell N)));
  testLabels : option (list (list (cell N)))
}.

(** [s.split(sep)] for a separator of one character. *)
Fixpoint split_on (sep : ascii) (s : string) : list string :=
  match s with
  | EmptyString => [EmptyString]
  | String c t =>
      if Ascii.eqb c sep then EmptyString :: split_on sep t
      else match split_on sep t with
           | x :: xs => String c x :: xs
           | [] => [String c EmptyString]
           end
  end.

(** [s.replace(c, '')] for a pattern of one character: the first
    occurrence goes. *)
Fixpoint remove_first (c : ascii) (s : string) : string :=
  match s with
  | EmptyString => EmptyString
  | String a t => if Ascii.eqb a c then t else String a (remove_first c t)
  end.

(** [_.dropRightWhile(l, p)] *)
Fixpoint dropRightWhile {A} (p : A -> bool) (l : list A) : list A :=
  match l with
  | [] => []
  | x :: t =>
      match dropRightWhile p t with
      | [] => if p x then [] else [x]
      | t' => x :: t'
      end
  end.

(** [_.isEqual(val, [''])] *)
Definition is_blank (row : list string) : bool :=
  match row with
  | [EmptyString] => true
  | _ => false
  end.

(** The rows of the file: the lines, split at the commas, without the
    blank lines at the end. *)
Definition rows_of_content (content : string) : list (list string) :=
  dropRightWhile is_blank
    (map (split_on ","%char) (split_on "010"%char content)).

(** [_.isNaN(v)] *)
Definition cell_isNaN (v : cell N) : bool :=
  match v with CNum x => isNaN x | _ => false end.

(** The callback that processes one element of a data row. *)
Definition convert_element (convs : string -> option (string -> cell N))
    (headers : list string) (colIndex : nat) (element : string) : cell N :=
  match convs (default "undefined" (headers !! colIndex)) with
  | Some converter =>
      let converted := converter element in
      if cell_isNaN converted then CStr element else converted
  | None =>
      let result := parseFloat (remove_first "034"%char element) in
      if isNaN result then CStr element else CNum result
  end.

(** The processed table: the header row as it is, the other rows
    converted. *)
Definition convert_rows (convs : string -> option (string -> cell N))
    (data : list (list string)) : list (list (cell N)) :=
  match data with
  | [] => []
  | headers :: rest =>
      map CStr headers :: map (imap (convert_element convs headers)) rest
  end.

(** [headers.indexOf(column)] *)
Fixpoint indexOf (row : list (cell N)) (column : string) : Z :=
  match row with
  | [] => -1
  | x :: t =>
      if match x with CStr s => String.eqb s column | _ => false end then 0
      else let i := indexOf t column in if i <? 0 then -1 else i + 1
  end.

(** [array[index]] as [_.pullAt] reads it *)
Definition at_index (row : list (cell N)) (index : Z) : cell N :=
  if index <? 0 then CUndefined
  else default CUndefined (row !! Z.to_nat index).

(** The loop of [_.pullAt] that removes the elements: over the sorted
    indexes from the largest down, an index equal to the one before it
    skipped, an index that is none of the array ignored. *)
Fixpoint basePullAt {A} (previous : option Z) (descending : list Z)
    (array : list A) : list A :=
  match descending with
  | [] => array
  | index :: rest =>
      if decide (previous = Some index) then basePullAt previous rest array
      else basePullAt (Some index) rest
             (if 0 <=? index then delete (Z.to_nat index) array else array)
  end.

(** [_.pullAt(row, indexes)]: the elements at the indexes, and the row as
    it is left, without them. *)
Definition pullAt (row : list (cell N)) (indexes : list Z)
  : list (cell N) * list (cell N) :=
  (map (at_index row) indexes,
   basePullAt None (reverse (merge_sort Z.le indexes)) row).

(** [extractColumns]: the extracted rows, and the rows of [data] as the
    call leaves them.  Without a header row [headers.indexOf] throws. *)
Definition extractColumns (data : list (list (cell N)))
    (columnNames : list string)
  : option (list (list (cell N)) * list (list (cell N))) :=
  indexes ←
    match head data, columnNames with
    | Some headers, _ => Some (map (indexOf headers) columnNames)
    | None, [] => Some []
    | None, _ :: _ => None
    end;
  let pulled := map (fun row => pullAt row indexes) data in
  Some (map fst pulled, map snd pulled).

(** [array.slice(start, end)] for integers; no [end] is the length. *)
Definition relative_index (len : nat) (k : Z) : nat :=
  if k <? 0 then Z.to_nat (Z.max (Z.of_nat len + k) 0)
  else Nat.min (Z.to_nat k) len.
Definition slice {A} (l : list A) (start : Z) (stop : option Z) : list A :=
  let from := relative_index (length l) start in
  let to :=
    match stop with
    | Some k => relative_index (length l) k
    | None => length l
    end in
  take (to - from) (drop from l).

(** The loader. *)
Definition loadCSV (content : string) (options : Options) : option Loaded :=
  let dataColumns := default [] (dataColumns options) in
  let labelColumns := default [] (labelColumns options) in
  let converters := default (fun _ => None) (converters options) in
  let shuffle := default false (shuffle options) in
  let splitTest := default SplitFalse (splitTest options) in
  let data := convert_rows converters (rows_of_content content) in
  '(labels, data) ← extractColumns data labelColumns;
  '(data, _) ← extractColumns data dataColumns;
  let data := tail data in
  let labels := tail labels in
  let data := if shuffle then shuffleSeed _ data else data in
  let labels := if shuffle then shuffleSeed _ labels else labels in
  match splitTest with
  | SplitFalse | SplitSize 0 => Some (mkLoaded data labels None None)
  | SplitTrue =>
      let trainSize := Z.of_nat (length data) / 2 in
      Some (mkLoaded (slice data trainSize None) (slice labels trainSize None)
                     (Some (slice data 0 (Some trainSize)))
                     (Some (slice labels 0 (Some trainSize))))
  | SplitSize trainSize =>
      Some (mkLoaded (slice data trainSize None) (slice labels trainSize None)
                     (Some (slice data 0 (Some trainSize)))
                     (Some (slice labels 0 (Some trainSize))))
  end.
End Loader.
End Csv.

(** ** Formulas on the loader *)

Module CsvSpec.
(** The elements of [l] at the positions that [keep] holds of. *)
Fixpoint keep_at {A} (keep : nat -> bool) (l : list A) : list A :=
  match l with
  | [] => []
  | x :: t =>
      let t' := keep_at (fun p => keep (S p)) t in
      if keep 0%nat then x :: t' else t'
  end.

(** The position is none of the indexes. *)
Definition unlisted (indexes : list Z) (p : nat) : bool :=
  bool_decide (Z.of_nat p ∉ indexes).

(** The cell of [row] in the column that the header row names [column];
    [undefined] if there is none. *)
Definition column_cell {N} (headers row : list (cell N)) (column : string)
  : cell N :=
  Csv.at_index row (Csv.indexOf headers column).

(** The options with another [splitTest]. *)
Definition with_splitTest {N} (s : split_flag) (o : Csv.Options (N := N))
  : Csv.Options (N := N) :=
  Csv.mkOptions (Csv.dataColumns o) (Csv.labelColumns o) (Csv.converters o)
                (Csv.shuffle o) (Some s).

(** [shuffleSeed.shuffle] rearranges positions, whatever the elements. *)
Definition positional (shuffleSeed : forall A : Type, list A -> list A)
  : Prop :=
  forall (A B : Type) (f : A -> B) (l : list A),
    shuffleSeed B (map f l) = map f (shuffleSeed A l).
End CsvSpec.

(** ** Instances for examples *)

Module Sample.
(** Options objects for the run's data: a batch size of 0, and one above
    the two training rows. *)
Definition zero_batch_options : Options xreal :=
  mkOptions (Some (lit 1%Q)) (Some 2%Z) (Some 0%Z) (Some (lit 0.5%Q)).
Definition h_zero : heap xreal := {[ 0%nat := zero_batch_options ]}.

(** An instance of the loader's parameters: the numbers are the natural
    numbers and NaN; [parseFloat] reads the digits a string starts with;
    the shuffle reverses the list. *)
Definition digit_value (c : ascii) : option Z :=
  let n := Z.of_nat (nat_of_ascii c) in
  if (48 <=? n) && (n <=? 57) then Some (n - 48) else None.
Fixpoint digits (acc : Z) (s : string) : Z :=
  match s with
  | String c t =>
      match digit_value c with
      | Some d => digits (acc * 10 + d) t
      | None => acc
      end
  | EmptyString => acc
  end.
Definition parseFloat (s : string) : option Z :=
  match s with
  | String c _ =>
      match digit_value c with Some _ => Some (digits 0 s) | None => None end
  | EmptyString => None
  end.
Definition isNaN (x : option Z) : bool :=
  match x with None => true | Some _ => false end.
Definition shuffle (A : Type) (l : list A) : list A := reverse l.

(** A file of three cars, and the options of the analysis script on a
    smaller scale. *)
Definition line_break : string := String "010"%char EmptyString.
Definition content : string :=
  "passedemissions,mpg,horsepower,weight" +:+ line_break +:+
  "TRUE,18,100,2" +:+ line_break +:+
  "FALSE,x,120,3" +:+ line_break +:+
  "TRUE,30,70,1" +:+ line_break.
Definition converters (name : string)
  : option (string -> cell (option Z)) :=
  if String.eqb name "passedemissions"
  then Some (fun ifPassed =>
               if String.eqb ifPassed "TRUE" then CNum (Some 1)
               else CNum (Some 0))
  else None.
Definition options : Csv.Options :=
  Csv.mkOptions (Some ["horsepower"; "weight"]) (Some ["passedemissions"])
                (Some converters) (Some true) (Some (SplitSize 1)).

(** The same with a data column that the file does not have. *)
Definition options_absent : Csv.Options :=
  Csv.mkOptions (Some ["horsepower"; "cylinders"]) (Some ["passedemissions"])
                (Some converters) (Some true) (Some (SplitSize 1)).

(** The table of the file, as the loader parses it. *)
Definition headers : list (cell (option Z)) :=
  [CStr "passedemissions"; CStr "mpg"; CStr "horsepower"; CStr "weight"].
Definition rows : list (list (cell (option Z))) :=
  [[CNum (Some 1); CNum (Some 18); CNum (Some 100); CNum (Some 2)];
   [CNum (Some 0); CStr "x"; CNum (Some 120); CNum (Some 3)];
   [CNum (Some 1); CNum (Some 30); CNum (Some 70); CNum (Some 1)]].
End Sample.

(** ** The weight update and the learning rate, written out *)

Section EntryFormulas.
Context {F : Type} `{Scalar F}.

(** [f 0 + (f 1 + (... + (f (n - 1) + 0)))] *)
Definition sum_upto (n : nat) (f : nat -> F) : F := vsum (map f (seq 0 n)).

(** The entry of a tensor in row [i] and column [j]. *)
Definition entry (M : matrix F) (i j : nat) : F := nth j (nth i M []) zero.

(** [w - lr * (X^T * (sigmoid (X * w) - y)) / n], entry by entry: for a
    batch [X] of [n] rows and [d] columns, the label column [y] and the
    weight column [w], the weight [j] becomes
    [w_j - lr * ((sum_i X_ij * (p_i - y_i)) / n)] with
    [p_i = sigmoid (sum_k X_ik * w_k)]. *)
Definition updated_weights (w : matrix F) (lr : F) (X y : matrix F)
  : matrix F :=
  let n := nrows X in
  let p := fun i =>
    t_sigmoid (sum_upto (ncols X)
                 (fun k => t_mul (entry X i k) (entry w k 0))) in
  let gradient := fun j =>
    t_div (sum_upto n (fun i => t_mul (entry X i j)
                                  (t_sub (p i) (entry y i 0))))
          (of_nat n) in
  map (fun j => [t_sub (entry w j 0) (t_mul lr (gradient j))])
      (seq 0 (ncols X)).

(** [k] calls of [train], one after the other. *)
Fixpoint trains (k : nat) (h : heap F) (m : Model F)
  : option (heap F * Model F) :=
  match k with
  | O => Some (h, m)
  | S k' => '(h', m') ← trains k' h m; train h' m'
  end.

(** The [learningRate] property of an options object that began with
    [lr], once the passes over a fresh model have recorded [costs] (the
    most recent first): the controller has written from the second cost
    on, and reads a missing rate as NaN. *)
Definition rate_after (costs : list F) (lr : option F) : option F :=
  match costs with
  | _ :: _ :: _ => Some (rate_of costs (to_number lr))
  | _ => lr
  end.
End EntryFormulas.

(** ** A training run with a row behind the last batch

    Four observations of one feature, [1], [1], [-1], [-1], with the
    labels 1, 0, 0 and [last], and the caller's options object
    [{learningRate: 1, iterations: 3, batchSize: 3, decisionBoundary: 0.5}]
    at location 0 of the heap: every pass has one batch, the rows 0 to 2,
    and the row 3 is in none. *)
Module PartialBatch.
Import XReal.
#[local] Open Scope R_scope.

Definition x : matrix xreal :=
  [[lit 1%Q]; [lit 1%Q]; [lit (-1)%Q]; [lit (-1)%Q]].
Definition y (last : Q) : matrix xreal :=
  [[lit 1%Q]; [lit 0%Q]; [lit 0%Q]; [lit last]].
Definition caller_options : Options xreal :=
  mkOptions (Some (lit 1%Q)) (Some 3%Z) (Some 3%Z) (Some (lit 0.5%Q)).
Definition h0 : heap xreal := {[ 0%nat := caller_options ]}.

(** The model the constructor builds, with the label [t] of the last
    row, the weights [a] and [b] and the cost history [costs]: mean 0
    and variance 1, so the standardized feature is the raw one. *)
Definition std_x : matrix xreal :=
  [[Real 1; Real 1]; [Real 1; Real 1]; [Real 1; Real (-1)];
   [Real 1; Real (-1)]].
Definition std_y (t : R) : matrix xreal :=
  [[Real 1]; [Real 0]; [Real 0]; [Real t]].
Definition model (t a b : R) (costs : list xreal) : Model xreal :=
  mkModel std_x (std_y t) (Some 0%nat) costs [[Real a]; [Real b]]
          (Some [Real 0]) (Some [Real 1]).

(** The one batch. *)
Definition batch_x : matrix xreal :=
  [[Real 1; Real 1]; [Real 1; Real 1]; [Real 1; Real (-1)]].
Definition batch_y : matrix xreal := [[Real 1]; [Real 0]; [Real 0]].

(** The weights after one gradient step on the batch, with learning
    rate [r], and the cost at weights [a], [b], over all four rows. *)
Definition step_a (a b r : R) : R :=
  a - (sg (a + b) - 1 + sg (a + b) + sg (a - b)) / 3 * r.
Definition step_b (a b r : R) : R :=
  b - (sg (a + b) - 1 + sg (a + b) - sg (a - b)) / 3 * r.
Definition cost (t a b : R) : R :=
  - ((ln (sg (a + b)) + t * ln (sg (a - b))
      + (ln (1 - sg (a + b)) + ln (1 - sg (a - b))
         + (1 - t) * ln (1 - sg (a - b)))) / 4).

(** The first two passes, both at the rate 1. *)
Definition a1 : R := step_a 0 0 1.
Definition b1 : R := step_b 0 0 1.
Definition a2 : R := step_a a1 b1 1.
Definition b2 : R := step_b a1 b1 1.

(** The heap after the second pass, when the rate goes up and when it
    goes down. *)
Definition h_up : heap xreal :=
  <[ 0%nat := mkOptions (Some (Real (1 * (21 / 20)))) (Some 3%Z) (Some 3%Z)
                        (Some (lit 0.5%Q)) ]> h0.
Definition h_down : heap xreal :=
  <[ 0%nat := mkOptions (Some (Real (1 / 2))) (Some 3%Z) (Some 3%Z)
                        (Some (lit 0.5%Q)) ]> h0.
End PartialBatch.

(** ** Shapes *)

Section Shapes.
Context {F : Type} `{Scalar F}.
Implicit Types (a b x : matrix F).

Lemma ncols_pos_inv x :
  (0 < ncols x)%nat -> exists e r xs, x = (e :: r) :: xs.
Proof.
  destruct x as [|[|e r] xs]; simpl; intros; try lia. eauto.
Qed.

Lemma entry00_ncols x : (0 < ncols x)%nat -> is_Some (entry00 x).
Proof.
  intros (e & r & xs & ->)%ncols_pos_inv. by exists e.
Qed.

Lemma nrows_transpose x : length (transpose x) = ncols x.
Proof. unfold transpose. by rewrite length_map, length_seq. Qed.

Lemma transpose_one_column x :
  ncols x = 1%nat -> transpose x = [column 0 x].
Proof. unfold transpose. by intros ->. Qed.

Lemma ncols_transpose x : (0 < ncols x)%nat -> ncols (transpose x) = nrows x.
Proof.
  unfold transpose. destruct (ncols x) as [|k]; [lia|]. intros _. simpl.
  unfold column. by rewrite length_map.
Qed.

Lemma ncols_matMul a b : a <> [] -> ncols (matMul a b) = ncols b.
Proof.
  destruct a as [|r a]; [done|]. intros _. simpl.
  by rewrite length_map, nrows_transpose.
Qed.

Lemma nrows_matMul a b : length (matMul a b) = length a.
Proof. unfold matMul. by rewrite length_map. Qed.

Lemma ncols_mmap f x : ncols (mmap f x) = ncols x.
Proof. destruct x; simpl; [done|]. by rewrite length_map. Qed.

Lemma ncols_mscalar f x c : ncols (mscalar f x c) = ncols x.
Proof. destruct x; simpl; [done|]. by rewrite length_map. Qed.

Lemma ncols_mzip f a b : ncols (mzip f a b) = (ncols a `min` ncols b)%nat.
Proof.
  destruct a as [|r a], b as [|s b]; simpl; try done; try lia.
  by rewrite length_zip_with.
Qed.

Lemma matMul_nil_iff a b : matMul a b = [] <-> a = [].
Proof. destruct a; simpl; split; congruence. Qed.

Lemma mmap_nil_iff f x : mmap f x = [] <-> x = [].
Proof. destruct x; simpl; split; congruence. Qed.

Lemma transpose_nil_iff x : transpose x = [] <-> ncols x = 0%nat.
Proof.
  unfold transpose. destruct (ncols x); simpl; split; intros E; done.
Qed.

(** The first column of a product with a one-column tensor. *)
Lemma matMul_one_column a b :
  ncols b = 1%nat -> matMul a b = map (fun row => [dot row (column 0 b)]) a.
Proof. intros E. unfold matMul. by rewrite transpose_one_column. Qed.

Lemma ncols_take_drop (k i : nat) x :
  (0 < k)%nat -> (i < length x)%nat ->
  exists r, x !! i = Some r /\ ncols (take k (drop i x)) = length r.
Proof.
  intros Hk Hi. destruct (lookup_lt_is_Some_2 x i Hi) as [r Hr].
  exists r. split; [done|].
  destruct k; [lia|].
  rewrite (drop_S _ _ _ Hr). done.
Qed.
End Shapes.

(** ** What each method leaves unchanged *)

Section Frames.
Context {F : Type} `{Scalar F}.
Implicit Types (h : heap F) (m : Model F) (o : Options F).

Lemma same_data_refl m : same_data m m.
Proof. by repeat split. Qed.

Lemma same_data_trans m1 m2 m3 :
  same_data m1 m2 -> same_data m2 m3 -> same_data m1 m3.
Proof.
  unfold same_data. intros (?&?&?&?&?) (?&?&?&?&?).
  repeat split; congruence.
Qed.

Lemma same_but_rate_refl l h : same_but_rate l h h.
Proof.
  split; [done|]. intros [lr it bs db] E. exists lr. by split.
Qed.

Lemma same_but_rate_trans l h1 h2 h3 :
  same_but_rate l h1 h2 -> same_but_rate l h2 h3 -> same_but_rate l h1 h3.
Proof.
  intros [A1 B1] [A2 B2]. split.
  - intros l' Hl. rewrite A2, A1; done.
  - intros o Ho. destruct (B1 o Ho) as (x & Hx & Sx).
    destruct (B2 _ Hx) as (x' & Hx' & Sx'). simpl in *.
    exists x'. split; [done|]. auto.
Qed.

Lemma same_but_rate_insert l h o x :
  h !! l = Some o -> same_but_rate l h (<[l := set_learningRate x o]> h).
Proof.
  intros Ho. split.
  - intros l' Hl. by rewrite lookup_insert_ne.
  - intros o' Ho'. rewrite Ho in Ho'. injection Ho' as <-.
    exists (Some x). rewrite lookup_insert_eq. split; [done|]. by eexists.
Qed.

Lemma gradientDescent_frame h m x y m' :
  gradientDescent h m x y = Some m' -> exists w, m' = set_weights w m.
Proof.
  unfold gradientDescent. intros E.
  destruct (this_options h m) as [o|]; simpl in E; [|discriminate].
  destruct (learningRate o) as [lr|]; simpl in E; [|discriminate].
  injection E as <-. eauto.
Qed.

Lemma recordCost_frame m m' :
  recordCost m = Some m' ->
  exists c, m' = set_costHistory (c :: costHistory m) m.
Proof.
  unfold recordCost. intros E.
  destruct (cost_of m) as [c|]; simpl in E; [|discriminate].
  injection E as <-. eauto.
Qed.

Lemma optimizeLearningRate_frame h m h' m' l :
  optimizeLearningRate h m = Some (h', m') ->
  options m = Some l ->
  m' = m /\ same_but_rate l h h'.
Proof.
  unfold optimizeLearningRate. intros E El.
  destruct (length (costHistory m) <? 2)%nat.
  { injection E as <- <-. split; [done|apply same_but_rate_refl]. }
  destruct (costHistory m !! 0%nat) as [c0|]; simpl in E; [|discriminate].
  destruct (costHistory m !! 1%nat) as [c1|]; simpl in E; [|discriminate].
  rewrite El in E. simpl in E.
  destruct (h !! l) as [o|] eqn:Eo; simpl in E; [|discriminate].
  destruct (js_gt c0 c1); injection E as <- <-;
    (split; [done|by apply same_but_rate_insert]).
Qed.

Lemma batch_step_frame h j m m' :
  batch_step h j m = Some m' -> exists w, m' = set_weights w m.
Proof.
  unfold batch_step. intros E.
  destruct (this_options h m) as [o|]; simpl in E; [|discriminate].
  destruct (batchSize o) as [bs|]; simpl in E; [|discriminate].
  destruct (slice_rows _ _ (features m)); simpl in E; [|discriminate].
  destruct (slice_rows _ _ (labels m)); simpl in E; [|discriminate].
  by eapply gradientDescent_frame.
Qed.

Lemma batch_iter_frame k h j m m' :
  batch_iter k h j m = Some m' -> exists w, m' = set_weights w m.
Proof.
  revert j m. induction k as [|k IH]; simpl; intros j m E.
  - injection E as <-. exists (weights m). by destruct m.
  - destruct (batch_step h j m) as [m1|] eqn:E1; simpl in E; [|discriminate].
    apply batch_step_frame in E1 as [w1 ->].
    apply IH in E as [w ->]. by exists w.
Qed.

Lemma batch_loop_frame bq h m m' :
  batch_loop bq h m = Some m' -> exists w, m' = set_weights w m.
Proof.
  destruct bq; simpl; intros E.
  - by eapply batch_iter_frame.
  - discriminate.
  - injection E as <-. exists (weights m). by destruct m.
Qed.

(** One pass of the outer loop adds one cost at the front of the history
    and writes nothing but the weights and the learning rate. *)
Lemma epoch_frame bq h m h' m' l :
  epoch bq h m = Some (h', m') ->
  options m = Some l ->
  same_data m m' /\ same_but_rate l h h' /\
  exists c, costHistory m' = c :: costHistory m.
Proof.
  unfold epoch. intros E El.
  destruct (batch_loop bq h m) as [m1|] eqn:E1; simpl in E; [|discriminate].
  destruct (recordCost m1) as [m2|] eqn:E2; simpl in E; [|discriminate].
  apply batch_loop_frame in E1 as [w ->].
  apply recordCost_frame in E2 as [c ->].
  apply optimizeLearningRate_frame with (l := l) in E as [-> Hh]; [|done].
  split; [by repeat split|]. split; [done|]. by exists c.
Qed.

Lemma recordCost_cost_of m m' :
  recordCost m = Some m' -> head (costHistory m') = cost_of m'.
Proof.
  unfold recordCost. intros E.
  destruct (cost_of m) as [c|] eqn:Ec; simpl in E; [|discriminate].
  injection E as <-. simpl. by rewrite <- Ec.
Qed.

(** The cost at the front of the history after a pass is the cost of the
    model as the pass leaves it. *)
Lemma epoch_cost_of bq h m h' m' :
  epoch bq h m = Some (h', m') -> head (costHistory m') = cost_of m'.
Proof.
  unfold epoch. intros E.
  destruct (batch_loop bq h m) as [m1|]; simpl in E; [|discriminate].
  destruct (recordCost m1) as [m2|] eqn:E2; simpl in E; [|discriminate].
  apply recordCost_cost_of in E2.
  assert (m' = m2) as ->; [|done].
  revert E. unfold optimizeLearningRate.
  destruct (length (costHistory m2) <? 2)%nat; [by intros [= _ <-]|].
  destruct (costHistory m2 !! 0%nat); simpl; [|discriminate].
  destruct (costHistory m2 !! 1%nat); simpl; [|discriminate].
  destruct (options m2) as [l|]; simpl; [|discriminate].
  destruct (h !! l) as [o|]; simpl; [|discriminate].
  destruct (js_gt _ _); by intros [= _ <-].
Qed.

Lemma after_epochs_frame k bq h m h' m' l :
  after_epochs k bq h m = Some (h', m') ->
  options m = Some l ->
  same_data m m' /\ same_but_rate l h h' /\
  exists cs, length cs = k /\ costHistory m' = cs ++ costHistory m.
Proof.
  revert h' m'. induction k as [|k IH]; simpl; intros h' m' E El.
  - injection E as <- <-. split; [apply same_data_refl|].
    split; [apply same_but_rate_refl|]. by exists [].
  - destruct (after_epochs k bq h m) as [[h1 m1]|]; simpl in E; [|discriminate].
    destruct (IH _ _ eq_refl El) as (D1 & R1 & cs & Lcs & Ecs).
    assert (options m1 = Some l) as El1 by (destruct D1 as (_&_&->&_); done).
    destruct (epoch_frame _ _ _ _ _ _ E El1) as (D2 & R2 & c & Ec).
    split; [by eapply same_data_trans|].
    split; [by eapply same_but_rate_trans|].
    exists (c :: cs). split; [simpl; lia|]. by rewrite Ec, Ecs.
Qed.

Lemma after_epochs_S_left k bq h m :
  after_epochs (S k) bq h m =
  '(h1, m1) ← epoch bq h m; after_epochs k bq h1 m1.
Proof.
  induction k as [|k IH].
  - simpl. destruct (epoch bq h m) as [[h1 m1]|]; done.
  - change (after_epochs (S (S k)) bq h m)
      with ('(h', m') ← after_epochs (S k) bq h m; epoch bq h' m').
    rewrite IH. destruct (epoch bq h m) as [[h1 m1]|]; done.
Qed.
End Frames.

(** ** The loops of [train] *)

Section Loops.
Context {F : Type} `{Scalar F}.
Implicit Types (h : heap F) (m : Model F) (o : Options F).

Lemma slice_rows_in_range (j : nat) (bs : Z) (x : matrix F) :
  1 <= bs -> (Z.of_nat j + 1) * bs <= Z.of_nat (length x) ->
  slice_rows (Z.of_nat j * bs) bs x = Some (rows_of j (Z.to_nat bs) x).
Proof.
  intros Hbs Hj. unfold slice_rows, rows_of.
  assert ((0 <=? Z.of_nat j * bs) = true) as -> by (apply Z.leb_le; nia).
  assert ((Z.of_nat j * bs <=? Z.of_nat (length x)) = true) as ->
    by (apply Z.leb_le; nia).
  assert ((bs =? -1) = false) as -> by (apply Z.eqb_neq; lia).
  assert ((0 <=? bs) = true) as -> by (apply Z.leb_le; lia).
  assert ((Z.of_nat j * bs + bs <=? Z.of_nat (length x)) = true) as ->
    by (apply Z.leb_le; nia).
  simpl. by rewrite Z2Nat.inj_mul, Nat2Z.id by lia.
Qed.

Lemma ncols_rows_of (j bs : nat) (x : matrix F) :
  (0 < bs)%nat -> (j * bs < length x)%nat ->
  exists r, x !! (j * bs)%nat = Some r /\ ncols (rows_of j bs x) = length r.
Proof. intros. by apply ncols_take_drop. Qed.

Lemma gradientDescent_shaped h m o lr (x y : matrix F) :
  this_options h m = Some o -> learningRate o = Some lr ->
  ncols (weights m) = 1%nat -> (0 < ncols x)%nat -> ncols y = 1%nat ->
  exists w, gradientDescent h m x y = Some (set_weights w m) /\
            ncols w = 1%nat.
Proof.
  intros Ho Hlr Hw Hx Hy. unfold gradientDescent. rewrite Ho. simpl.
  rewrite Hlr. simpl. eexists. split; [done|].
  assert (x <> []) as Hxne by (intros ->; simpl in Hx; lia).
  rewrite ncols_mzip, ncols_mscalar, ncols_mscalar, ncols_matMul.
  - rewrite ncols_mzip, ncols_mmap, ncols_matMul, Hw, Hy by done. done.
  - rewrite transpose_nil_iff. lia.
Qed.

(** The inner loop from batch [j] on is the sequence of gradient steps on
    the row ranges [i * bs .. (i + 1) * bs), and it keeps the shapes. *)
Lemma batch_iter_descend (k j : nat) h m o lr (bs : Z) :
  this_options h m = Some o -> learningRate o = Some lr ->
  batchSize o = Some bs -> 1 <= bs ->
  well_shaped m ->
  (Z.of_nat j + Z.of_nat k) * bs <= Z.of_nat (length (features m)) ->
  exists w,
    batch_iter k h (Z.of_nat j) m = Some (set_weights w m) /\
    descend h m
      (map (fun i => (rows_of i (Z.to_nat bs) (features m),
                      rows_of i (Z.to_nat bs) (labels m))) (seq j k))
    = Some (set_weights w m) /\
    ncols w = 1%nat.
Proof.
  revert j m. induction k as [|k IH]; intros j m Ho Hlr Hbs Hpos Hm Hrange.
  { exists (weights m). destruct Hm as (_&_&_&_&Hw). simpl.
    by destruct m. }
  destruct Hm as (Hne & Hrows & Hlen & Hcol & Hw).
  simpl. unfold batch_step. rewrite Ho. simpl. rewrite Hbs. simpl.
  rewrite !slice_rows_in_range by (rewrite ?Hlen; nia). simpl.
  assert (0 < Z.to_nat bs)%nat as Hbs' by lia.
  assert (j * Z.to_nat bs < length (features m))%nat as Hj by nia.
  destruct (ncols_rows_of j _ (features m) Hbs' Hj) as (r & Hr & Hcx).
  destruct (ncols_rows_of j _ (labels m) Hbs') as (s & Hs & Hcy);
    [by rewrite Hlen|].
  assert (0 < length r)%nat as Hrpos.
  { eapply Forall_lookup_1 in Hrows; [|exact Hr]. destruct r; simpl; [done|lia]. }
  assert (length s = 1%nat) as Hspos.
  { eapply Forall_lookup_1 in Hcol; [|exact Hs]. done. }
  destruct (gradientDescent_shaped h m o lr
              (rows_of j (Z.to_nat bs) (features m))
              (rows_of j (Z.to_nat bs) (labels m)))
    as (w1 & -> & Hw1); try done; try lia.
  simpl.
  assert (well_shaped (set_weights w1 m)) as Hm1 by (by repeat split).
  destruct (IH (S j) (set_weights w1 m) Ho Hlr Hbs Hpos Hm1)
    as (w & E1 & E2 & Hw2); [simpl; lia|].
  exists w. replace (Z.of_nat j + 1) with (Z.of_nat (S j)) by lia.
  rewrite E1. simpl in E2. rewrite E2. by destruct m.
Qed.

Lemma recordCost_shaped m :
  well_shaped m ->
  exists c, recordCost m = Some (set_costHistory (c :: costHistory m) m).
Proof.
  intros (Hne & Hrows & Hlen & Hcol & Hw). unfold recordCost, cost_of.
  assert (labels m <> []) as Hlne.
  { intros E. rewrite E in Hlen. destruct (features m); simpl in *; done. }
  assert (ncols (labels m) = 1%nat) as Hcl.
  { destruct (labels m) as [|r l]; [done|]. by inversion Hcol. }
  match goal with |- context [entry00 ?t] =>
    destruct (entry00_ncols t) as [c ->] end.
  - rewrite !ncols_mscalar, ncols_mzip.
    rewrite !ncols_matMul, !ncols_mmap, !ncols_mscalar, ncols_mmap,
      ncols_matMul, Hw; try done; try lia.
    + rewrite transpose_nil_iff, !ncols_mscalar. lia.
    + rewrite transpose_nil_iff. lia.
  - by exists c.
Qed.

Lemma optimizeLearningRate_returns h m o :
  this_options h m = Some o ->
  exists h', optimizeLearningRate h m = Some (h', m).
Proof.
  unfold this_options, optimizeLearningRate. intros Ho.
  destruct (options m) as [l|]; simpl in *; [|done]. rewrite Ho.
  destruct (costHistory m) as [|c0 [|c1 cs]]; simpl; eauto.
  destruct (js_gt c0 c1); eauto.
Qed.

(** [train] is as many passes of the loop body as [iterations] says: the
    bound read before every pass never changes, and the fuel suffices. *)
Lemma epoch_loop_after_epochs (k : nat) bq (i n : Z) h m o :
  this_options h m = Some o -> iterations o = Some n ->
  k = Z.to_nat (n - i) ->
  epoch_loop k bq i h m = after_epochs k bq h m.
Proof.
  revert i h m o. induction k as [|k IH]; intros i h m o Ho Hn Hk.
  - simpl. rewrite Ho. simpl. rewrite Hn. simpl.
    assert ((i <? n) = false) as -> by (apply Z.ltb_ge; lia). done.
  - rewrite after_epochs_S_left.
    cbn [epoch_loop]. rewrite Ho. simpl. rewrite Hn. simpl.
    assert ((i <? n) = true) as -> by (apply Z.ltb_lt; lia).
    destruct (epoch bq h m) as [[h1 m1]|] eqn:E; simpl; [|done].
    unfold this_options in Ho.
    destruct (options m) as [l|] eqn:El; simpl in Ho; [|done].
    destruct (epoch_frame _ _ _ _ _ _ E El) as ((_&_&Eo&_) & (_ & Hh) & _).
    destruct (Hh _ Ho) as (x & Hx & _).
    eapply IH; [| |lia].
    + unfold this_options. rewrite Eo, El. simpl. exact Hx.
    + done.
Qed.

Lemma train_after_epochs h m o :
  this_options h m = Some o ->
  train h m =
  after_epochs (Z.to_nat (default 0 (iterations o)))
               (floor_div (nrows (features m)) (batchSize o)) h m.
Proof.
  intros Ho. unfold train. rewrite Ho. simpl.
  destruct (iterations o) as [n|] eqn:Hn; simpl.
  - eapply epoch_loop_after_epochs; [done..|lia].
  - rewrite Ho. simpl. by rewrite Hn.
Qed.

(** A pass over a well-shaped model with a positive batch size returns. *)
Lemma epoch_shaped h m o lr (bs : Z) :
  this_options h m = Some o -> learningRate o = Some lr ->
  batchSize o = Some bs -> 1 <= bs -> well_shaped m ->
  exists h' m',
    epoch (floor_div (nrows (features m)) (Some bs)) h m = Some (h', m') /\
    well_shaped m'.
Proof.
  intros Ho Hlr Hbs Hpos Hm. unfold epoch, floor_div.
  assert ((bs =? 0) = false) as -> by (apply Z.eqb_neq; lia).
  cbn [batch_loop].
  destruct (batch_iter_descend
              (Z.to_nat (Z.of_nat (nrows (features m)) / bs)) 0 h m o lr bs)
    as (w & E & _ & Hw); try done.
  { pose proof (Z.mul_div_le (Z.of_nat (nrows (features m))) bs).
    assert (0 <= Z.of_nat (nrows (features m)) / bs)
      by (apply Z.div_pos; lia).
    unfold nrows in *. nia. }
  change (Z.of_nat 0) with 0 in E. rewrite E. simpl.
  assert (well_shaped (set_weights w m)) as Hm1
    by (destruct Hm as (?&?&?&?&?); by repeat split).
  destruct (recordCost_shaped _ Hm1) as [c ->]. simpl.
  match goal with |- context [optimizeLearningRate h ?m2] =>
    destruct (optimizeLearningRate_returns h m2 o) as [h' ->]; [done|] end.
  eexists _, _. split; [done|].
  destruct Hm1 as (?&?&?&?&?); by repeat split.
Qed.

Lemma after_epochs_shaped (k : nat) h m o lr (bs : Z) :
  this_options h m = Some o -> learningRate o = Some lr ->
  batchSize o = Some bs -> 1 <= bs -> well_shaped m ->
  exists h' m',
    after_epochs k (floor_div (nrows (features m)) (Some bs)) h m
      = Some (h', m') /\
    well_shaped m'.
Proof.
  intros Ho Hlr Hbs Hpos Hm. induction k as [|k (h1 & m1 & E1 & Hm1)].
  { by exists h, m. }
  cbn [after_epochs]. rewrite E1.
  change (exists h' m',
            epoch (floor_div (nrows (features m)) (Some bs)) h1 m1
              = Some (h', m') /\ well_shaped m').
  unfold this_options in Ho.
  destruct (options m) as [l|] eqn:El; simpl in Ho; [|done].
  destruct (after_epochs_frame _ _ _ _ _ _ _ E1 El)
    as ((Ef&_&Eo&_) & (_ & Hh) & _).
  destruct (Hh _ Ho) as (x & Hx & Sx). destruct Sx as [lr1 ->]; [by eexists|].
  rewrite <- Ef.
  eapply (epoch_shaped h1 m1
            (mkOptions (Some lr1) (iterations o) (batchSize o)
                       (decisionBoundary o)) lr1 bs);
    [| reflexivity | exact Hbs | done..].
  unfold this_options. rewrite Eo, El. simpl. exact Hx.
Qed.
End Loops.

(** ** The constructor *)

Section Construction.
Context {F : Type} `{Scalar F}.
Implicit Types (h : heap F) (m : Model F) (o : Options F).

Lemma standardized_rows (mu v : vector F) (x : matrix F) :
  standardized mu v x =
  map (fun r => one :: zip_with t_div (zip_with t_sub r mu)
                         (map (fun a => t_pow a (lit 0.5%Q)) v)) x.
Proof.
  unfold standardized, concat1, ones, mrow, nrows.
  induction x as [|r x IH]; simpl; [done|]. by rewrite IH.
Qed.

Lemma preprocessFeatures_blank (x : matrix F) :
  preprocessFeatures blank x =
  (set_moments (moments0 x).1 (moments0 x).2 blank,
   standardized (moments0 x).1 (moments0 x).2 x).
Proof.
  unfold preprocessFeatures, standardize, standardized, mrow, nrows. simpl.
  by rewrite !length_map.
Qed.

Lemma preprocessFeatures_stored m (mu v : vector F) (x : matrix F) :
  mean m = Some mu -> variance m = Some v ->
  preprocessFeatures m x = (m, standardized mu v x).
Proof.
  intros Hm Hv. unfold preprocessFeatures, standardized, mrow, nrows.
  by rewrite Hm, Hv, !length_map.
Qed.

Lemma constructor_model h (x y : matrix F) (opts : option loc) :
  (constructor h x y opts).2 =
  mkModel (standardized (moments0 x).1 (moments0 x).2 x) y
          (Some (default (fresh (dom h)) opts)) []
          (zeros (ncols (standardized (moments0 x).1 (moments0 x).2 x)))
          (Some (moments0 x).1) (Some (moments0 x).2).
Proof.
  unfold constructor. rewrite preprocessFeatures_blank.
  destruct opts; done.
Qed.

Lemma constructor_well_shaped h (x y : matrix F) (opts : option loc) :
  x <> [] -> length y = length x -> is_column y ->
  well_shaped (constructor h x y opts).2.
Proof.
  intros Hx Hlen Hy. rewrite constructor_model. unfold well_shaped. simpl.
  rewrite standardized_rows.
  split; [by destruct x|].
  split; [apply Forall_map, Forall_true; done|].
  split; [by rewrite length_map|].
  split; [done|].
  destruct x as [|r x]; [done|]. done.
Qed.
End Construction.

(** ** Training *)

Section Training.
Context {F : Type} `{Scalar F}.
Implicit Types (h : heap F) (m : Model F) (o : Options F).

(** C3. [optimizeLearningRate] returns at once, changing nothing, while
    fewer than two costs are recorded.  With the most recent cost [recent]
    and the one before it [previous], it writes [learningRate / 2] when
    [recent > previous] and [learningRate * 1.05] in every other case, equal
    costs among them, into the options object; the model and everything
    else in the heap stay as they are. *)
Theorem optimizeLearningRate_rule `{!StrictGreater F} h m (l : loc) o (lr : F) :
  options m = Some l -> h !! l = Some o -> learningRate o = Some lr ->
  ((length (costHistory m) < 2)%nat ->
     optimizeLearningRate h m = Some (h, m)) /\
  (forall recent previous older,
     costHistory m = recent :: previous :: older ->
     optimizeLearningRate h m =
     Some (<[l := mkOptions
                    (Some (if js_gt recent previous
                           then js_div lr (lit 2%Q)
                           else js_mul lr (lit 1.05%Q)))
                    (iterations o) (batchSize o) (decisionBoundary o)]> h,
           m)) /\
  (forall c older,
     costHistory m = c :: c :: older ->
     optimizeLearningRate h m =
     Some (<[l := mkOptions (Some (js_mul lr (lit 1.05%Q)))
                    (iterations o) (batchSize o) (decisionBoundary o)]> h,
           m)).
Proof.
  intros Hl Ho Hlr.
  assert (forall recent previous older,
     costHistory m = recent :: previous :: older ->
     optimizeLearningRate h m =
     Some (<[l := mkOptions
                    (Some (if js_gt recent previous
                           then js_div lr (lit 2%Q)
                           else js_mul lr (lit 1.05%Q)))
                    (iterations o) (batchSize o) (decisionBoundary o)]> h,
           m)) as Hrule.
  { intros recent previous older E. unfold optimizeLearningRate.
    rewrite E. simpl. rewrite Hl. simpl. rewrite Ho. simpl. rewrite Hlr.
    simpl. unfold set_learningRate. by destruct (js_gt recent previous). }
  split; [|split].
  - intros Hlen. unfold optimizeLearningRate.
    apply Nat.ltb_lt in Hlen. by rewrite Hlen.
  - exact Hrule.
  - intros c older E. rewrite (Hrule _ _ _ E). by rewrite js_gt_irrefl.
Qed.

(** C10. The defaults of the constructor are those of a fresh object that
    exists only when the options argument is left out.  An options object
    that is passed is stored as it is, nothing is filled in; and when it
    has no [iterations], [train] returns without a single pass: the weights
    are still all zero and the cost history is empty. *)
Theorem constructor_defaults h (x y : matrix F) (l : loc) o :
  h !! l = Some o -> iterations o = None ->
  (let '(h0, m0) := constructor h x y None in
   exists l0, h !! l0 = None /\ options m0 = Some l0 /\
     h0 = <[l0 := mkOptions (Some (lit 0.1%Q)) (Some 1000) (Some 1)
                            (Some (lit 0.5%Q))]> h) /\
  (let '(h0, m0) := constructor h x y (Some l) in
   h0 = h /\ this_options h0 m0 = Some o /\
   train h0 m0 = Some (h0, m0) /\
   weights m0 = repeat [lit 0%Q] (ncols (features m0)) /\
   costHistory m0 = []).
Proof.
  intros Ho Hit. split.
  - pose proof (constructor_model h x y None) as E.
    destruct (constructor h x y None) as [h0 m0] eqn:Ec. simpl in E.
    exists (fresh (dom h)). split; [|split].
    + apply not_elem_of_dom, is_fresh.
    + by rewrite E.
    + unfold constructor in Ec. rewrite preprocessFeatures_blank in Ec.
      by injection Ec as <- _.
  - pose proof (constructor_model h x y (Some l)) as E.
    destruct (constructor h x y (Some l)) as [h0 m0] eqn:Ec. simpl in E.
    assert (h0 = h) as ->.
    { unfold constructor in Ec. rewrite preprocessFeatures_blank in Ec.
      by injection Ec as <- _. }
    assert (this_options h m0 = Some o) as Hto by (by rewrite E).
    split; [done|]. split; [done|]. split; [|by rewrite E].
    rewrite (train_after_epochs _ _ _ Hto), Hit. done.
Qed.

(** C8. A model built from features with at least one row, a label column
    with as many rows and a full options record (a batch size of at least
    1, [iterations >= 0]): the first [train] call returns with exactly
    [iterations] costs in the history, a second one with twice as many. *)
Theorem train_cost_history_length h (x y : matrix F) (l : loc)
    (lr db : F) (n bs : Z) :
  x <> [] -> length y = length x -> is_column y ->
  h !! l = Some (mkOptions (Some lr) (Some n) (Some bs) (Some db)) ->
  0 <= n -> 1 <= bs ->
  let '(h0, m0) := constructor h x y (Some l) in
  exists h1 m1 h2 m2,
    train h0 m0 = Some (h1, m1) /\
    length (costHistory m1) = Z.to_nat n /\
    train h1 m1 = Some (h2, m2) /\
    length (costHistory m2) = (2 * Z.to_nat n)%nat.
Proof.
  intros Hx Hlen Hy Ho Hn Hbs.
  pose proof (constructor_model h x y (Some l)) as E.
  pose proof (constructor_well_shaped h x y (Some l) Hx Hlen Hy) as Hm0.
  destruct (constructor h x y (Some l)) as [h0 m0] eqn:Ec. simpl in E, Hm0.
  assert (h0 = h) as ->.
  { unfold constructor in Ec. rewrite preprocessFeatures_blank in Ec.
    by injection Ec as <- _. }
  assert (options m0 = Some l) as El by (by rewrite E).
  assert (costHistory m0 = []) as Ec0 by (by rewrite E).
  set (o := mkOptions (Some lr) (Some n) (Some bs) (Some db)) in *.
  assert (this_options h m0 = Some o) as Hto
    by (unfold this_options; by rewrite El).
  (* first call *)
  destruct (after_epochs_shaped (Z.to_nat n) h m0 o lr bs)
    as (h1 & m1 & E1 & Hm1); try done.
  destruct (after_epochs_frame _ _ _ _ _ _ _ E1 El)
    as ((Ef&_&Eo&_) & (_ & Hl) & cs & Lcs & Ecs).
  destruct (Hl _ Ho) as (rate & Hrate & Srate).
  destruct Srate as [lr1 ->]; [by eexists|].
  set (o1 := mkOptions (Some lr1) (Some n) (Some bs) (Some db)) in *.
  assert (this_options h1 m1 = Some o1) as Hto1
    by (unfold this_options; by rewrite Eo, El).
  (* second call *)
  destruct (after_epochs_shaped (Z.to_nat n) h1 m1 o1 lr1 bs)
    as (h2 & m2 & E2 & Hm2); try done.
  destruct (after_epochs_frame _ _ _ _ _ _ l E2)
    as (_ & _ & cs2 & Lcs2 & Ecs2); [congruence|].
  exists h1, m1, h2, m2.
  rewrite (train_after_epochs _ _ _ Hto), (train_after_epochs _ _ _ Hto1).
  simpl. split; [done|]. split.
  { rewrite Ecs, Ec0, length_app. simpl. lia. }
  split; [done|].
  rewrite Ecs2, Ecs, Ec0, !length_app. simpl. lia.
Qed.
End Training.

(** ** The cost history and the batches *)

Section History.
Context {F : Type} `{Scalar F}.
Implicit Types (h : heap F) (m : Model F) (o : Options F).

Lemma after_epochs_costs (k : nat) bq h m h' m' (l : loc) :
  after_epochs k bq h m = Some (h', m') -> options m = Some l ->
  forall i, (i < k)%nat ->
    is_Some (costHistory m' !! i) /\
    costHistory m' !! i = epoch_cost bq h m (k - 1 - i).
Proof.
  revert h' m'. induction k as [|k IH]; intros h' m' E El i Hi; [lia|].
  pose proof E as E'. cbn [after_epochs] in E.
  destruct (after_epochs k bq h m) as [[h1 m1]|] eqn:E1; simpl in E;
    [|discriminate].
  destruct (after_epochs_frame _ _ _ _ _ _ _ E1 El) as ((_&_&Eo&_) & _ & _).
  destruct (epoch_frame _ _ _ _ _ l E) as (_ & _ & c & Ec); [congruence|].
  pose proof (epoch_cost_of _ _ _ _ _ E) as Hc.
  rewrite Ec in *. destruct i as [|i].
  - replace (S k - 1 - 0)%nat with k by lia.
    unfold epoch_cost. rewrite E'. simpl. rewrite <- Hc.
    split; [by eexists|done].
  - replace (S k - 1 - S i)%nat with (k - 1 - i)%nat by lia.
    simpl. apply (IH _ _ eq_refl El). lia.
Qed.

(** C1, amended. After a [train] call the cost history has the most recent
    cost first: with [n] the number of passes, the entry at index [i < n] is
    the cost recorded at the end of pass [n - 1 - i], so the first recorded
    cost comes last; the entries that were there before follow. *)
Theorem costHistory_newest_first h m o h' m' :
  this_options h m = Some o -> train h m = Some (h', m') ->
  let n := Z.to_nat (default 0 (iterations o)) in
  let bq := floor_div (nrows (features m)) (batchSize o) in
  (exists cs, length cs = n /\ costHistory m' = cs ++ costHistory m) /\
  (forall i, (i < n)%nat ->
     is_Some (costHistory m' !! i) /\
     costHistory m' !! i = epoch_cost bq h m (n - 1 - i)).
Proof.
  intros Ho Ht n bq. rewrite (train_after_epochs _ _ _ Ho) in Ht.
  fold n bq in Ht.
  pose proof Ho as Ho'. unfold this_options in Ho'.
  destruct (options m) as [l|] eqn:El; simpl in Ho'; [|done].
  split.
  - by destruct (after_epochs_frame _ _ _ _ _ _ _ Ht El) as (_ & _ & ?).
  - by eapply after_epochs_costs.
Qed.

Lemma after_epochs_state (k : nat) h m o (lr : F) (bs : Z) hk mk :
  this_options h m = Some o -> learningRate o = Some lr ->
  batchSize o = Some bs -> 1 <= bs -> well_shaped m ->
  after_epochs k (floor_div (nrows (features m)) (Some bs)) h m
    = Some (hk, mk) ->
  well_shaped mk /\ same_data m mk /\
  exists lrk,
    this_options hk mk =
    Some (mkOptions (Some lrk) (iterations o) (Some bs) (decisionBoundary o)).
Proof.
  intros Ho Hlr Hbs Hpos Hm E.
  destruct (after_epochs_shaped k h m o lr bs) as (h' & m' & E' & Hm');
    try done.
  rewrite E in E'. injection E' as <- <-.
  unfold this_options in Ho.
  destruct (options m) as [l|] eqn:El; simpl in Ho; [|done].
  destruct (after_epochs_frame _ _ _ _ _ _ _ E El) as (D & (_ & Hl) & _).
  destruct (Hl _ Ho) as (rate & Hrate & Srate).
  destruct Srate as [lrk ->]; [by eexists|].
  split; [done|]. split; [done|]. exists lrk.
  destruct D as (_&_&Eo&_). unfold this_options. rewrite Eo, El. simpl.
  by rewrite Hrate, Hbs.
Qed.

Lemma rows_of_take (j count size : nat) (x : matrix F) :
  (j < count)%nat -> rows_of j size (take (count * size) x) = rows_of j size x.
Proof.
  intros Hj. unfold rows_of.
  rewrite !take_drop_commute, take_take. do 2 f_equal. nia.
Qed.

Lemma batches_take (count size : nat) (X y : matrix F) :
  batches count size (take (count * size) X) (take (count * size) y)
  = batches count size X y.
Proof.
  unfold batches. apply map_ext_in. intros j Hj%in_seq.
  by rewrite !rows_of_take by lia.
Qed.

(** C7, amended. [train] is [iterations] passes with one loop bound,
    [floor (rows / bs)].  In every pass over a well-shaped model with a
    batch size [bs >= 1], the inner loop is the sequence of exactly that
    many gradient steps, on the row ranges [j * bs .. (j + 1) * bs) of
    features and labels with [j] increasing from 0, and it returns; these
    batches are those of the first [floor (rows / bs) * bs] rows, so no row
    behind them is handed to a gradient step.  (Those rows still count in
    the cost that the pass records, see C5, and in what follows from it.) *)
Theorem epoch_batches (k : nat) h m o (lr : F) (bs : Z) hk mk :
  this_options h m = Some o -> learningRate o = Some lr ->
  batchSize o = Some bs -> 1 <= bs -> well_shaped m ->
  let bq := floor_div (nrows (features m)) (batchSize o) in
  let count := Z.to_nat (Z.of_nat (nrows (features m)) / bs) in
  let size := Z.to_nat bs in
  let B := batches count size (features m) (labels m) in
  after_epochs k bq h m = Some (hk, mk) ->
  train h m = after_epochs (Z.to_nat (default 0 (iterations o))) bq h m /\
  bq = Fin (Z.of_nat count) /\
  features mk = features m /\ labels mk = labels m /\
  (exists w,
     batch_loop bq hk mk = Some (set_weights w mk) /\
     descend hk mk B = Some (set_weights w mk)) /\
  epoch bq hk mk =
    (m1 ← descend hk mk B; m2 ← recordCost m1; optimizeLearningRate hk m2) /\
  length B = count /\
  B = batches count size (take (count * size) (features m))
                         (take (count * size) (labels m)).
Proof.
  intros Ho Hlr Hbs Hpos Hm bq count size B E.
  assert (bq = Fin (Z.of_nat count)) as Hbq.
  { unfold bq, count, floor_div. rewrite Hbs.
    assert ((bs =? 0) = false) as -> by (apply Z.eqb_neq; lia).
    rewrite Z2Nat.id; [done|]. apply Z.div_pos; lia. }
  unfold bq in E. rewrite Hbs in E.
  destruct (after_epochs_state _ _ _ _ _ _ _ _ Ho Hlr Hbs Hpos Hm E)
    as (Hmk & (Ef & El & _) & lrk & Hok).
  assert (exists w,
     batch_loop bq hk mk = Some (set_weights w mk) /\
     descend hk mk B = Some (set_weights w mk)) as Hloop.
  { rewrite Hbq. cbn [batch_loop]. rewrite Nat2Z.id.
    destruct (batch_iter_descend count 0 hk mk _ lrk bs Hok)
      as (w & E1 & E2 & _); try done.
    { rewrite Ef. pose proof (Z.mul_div_le (Z.of_nat (nrows (features m))) bs).
      assert (0 <= Z.of_nat (nrows (features m)) / bs)
        by (apply Z.div_pos; lia).
      unfold count, nrows in *. nia. }
    exists w. split; [exact E1|]. rewrite Ef, El in E2. exact E2. }
  split; [by apply train_after_epochs|].
  split; [done|]. split; [done|]. split; [done|]. split; [done|].
  split; [|split].
  - destruct Hloop as (w & E1 & E2). unfold epoch. by rewrite E1, E2.
  - unfold B, batches. by rewrite length_map, length_seq.
  - unfold B. by rewrite batches_take.
Qed.
End History.

(** ** Standardisation, prediction and the cost *)

Section Prediction.
Context {F : Type} `{Scalar F}.
Implicit Types (h : heap F) (m : Model F) (o : Options F).

Lemma predict_stored h m (mu v : vector F) (obs : matrix F) m' out :
  mean m = Some mu -> variance m = Some v ->
  predict h m obs = Some (m', out) -> m' = m.
Proof.
  intros Hmu Hv. unfold predict.
  rewrite (preprocessFeatures_stored _ _ _ _ Hmu Hv). intros E.
  destruct (this_options h m) as [o|]; simpl in E; [|discriminate].
  destruct (decisionBoundary o); simpl in E; [|discriminate].
  by injection E as <- _.
Qed.

Lemma optimizeLearningRate_model h m h' m' :
  optimizeLearningRate h m = Some (h', m') -> m' = m.
Proof.
  unfold optimizeLearningRate. intros E.
  destruct (length (costHistory m) <? 2)%nat; [by injection E as _ <-|].
  destruct (costHistory m !! 0%nat) as [c0|]; simpl in E; [|discriminate].
  destruct (costHistory m !! 1%nat) as [c1|]; simpl in E; [|discriminate].
  destruct (options m) as [l|]; simpl in E; [|discriminate].
  destruct (h !! l) as [o|]; simpl in E; [|discriminate].
  destruct (js_gt c0 c1); by injection E as _ <-.
Qed.

Lemma train_same_data h m h' m' :
  train h m = Some (h', m') -> same_data m m'.
Proof.
  intros E. destruct (this_options h m) as [o|] eqn:Ho.
  - rewrite (train_after_epochs _ _ _ Ho) in E. unfold this_options in Ho.
    destruct (options m) as [l|] eqn:El; simpl in Ho; [|done].
    by destruct (after_epochs_frame _ _ _ _ _ _ _ E El) as (? & _).
  - unfold train in E. by rewrite Ho in E.
Qed.

(** No method call replaces moments that are stored. *)
Lemma call_keeps_moments (s s' : heap F * Model F) (mu v : vector F) :
  call s s' ->
  mean s.2 = Some mu -> variance s.2 = Some v ->
  mean s'.2 = Some mu /\ variance s'.2 = Some v.
Proof.
  intros Hc Hmu Hv. destruct Hc as
    [h m h' m' E | h m obs m' out E | h m x y m' acc E | h m x m' out E
    | h m x y m' E | h m m' E | h m h' m' E]; simpl in *.
  - apply train_same_data in E as (_&_&_&->&->). done.
  - by rewrite (predict_stored _ _ _ _ _ _ _ Hmu Hv E).
  - unfold test in E.
    destruct (predict h m x) as [[m1 p]|] eqn:Ep; simpl in E; [|discriminate].
    injection E as <- _. by rewrite (predict_stored _ _ _ _ _ _ _ Hmu Hv Ep).
  - rewrite (preprocessFeatures_stored _ _ _ _ Hmu Hv) in E.
    by injection E as <- _.
  - by apply gradientDescent_frame in E as [w ->].
  - by apply recordCost_frame in E as [c ->].
  - by rewrite (optimizeLearningRate_model _ _ _ _ E).
Qed.

(** C6. The constructor's call of [preprocessFeatures] computes the mean
    and variance of the training columns and standardizes the training
    features with them.  Whatever is called on the model afterwards, in any
    number and order, these moments are still the stored ones, and
    [preprocessFeatures] applies them, [(x - mean) / sqrt variance] behind a
    column of ones, to any input and leaves the model as it is. *)
Theorem moments_computed_once h (x y : matrix F) (opts : option loc)
    (s : heap F * Model F) :
  calls (constructor h x y opts) s ->
  let mu := (moments0 x).1 in
  let v := (moments0 x).2 in
  features (constructor h x y opts).2 = standardized mu v x /\
  mean s.2 = Some mu /\ variance s.2 = Some v /\
  forall obs, preprocessFeatures s.2 obs = (s.2, standardized mu v obs).
Proof.
  intros Hs mu v. split; [by rewrite constructor_model|].
  assert (mean s.2 = Some mu /\ variance s.2 = Some v) as [Hmu Hv].
  { induction Hs as [|s2 s3 _ [IH1 IH2] Hc].
    - by rewrite constructor_model.
    - by eapply call_keeps_moments. }
  split; [done|]. split; [done|].
  intros obs. by apply preprocessFeatures_stored.
Qed.

(** C9. [predict] on a model with stored moments for [c] columns and a
    weight column of [c + 1] entries, given observations of [c] columns,
    returns one row per observation, in the order of the observations:
    the label 1.0 if the sigmoid of the processed row times the weights
    is greater than [decisionBoundary], and 0.0 if not; a probability
    equal to the boundary gives 0.0. *)
Theorem predict_threshold `{!StrictGreater F} h m o (db : F) (mu v : vector F)
    (obs : matrix F) :
  this_options h m = Some o -> decisionBoundary o = Some db ->
  mean m = Some mu -> variance m = Some v -> length v = length mu ->
  Forall (fun r => length r = length mu) obs ->
  length (weights m) = S (length mu) -> is_column (weights m) ->
  predict h m obs =
    Some (m, map (fun r =>
                    [classify db (probability mu v (column 0 (weights m)) r)])
                 obs) /\
  (forall p, classify db p = (if t_greater p db then lit 1%Q else lit 0%Q)) /\
  classify db db = lit 0%Q.
Proof.
  intros Ho Hdb Hmu Hv _ _ Hlen Hcol.
  assert (ncols (weights m) = 1%nat) as Hw.
  { destruct (weights m) as [|r w]; [done|]. by inversion Hcol. }
  split; [|split].
  - unfold predict. rewrite (preprocessFeatures_stored _ _ _ _ Hmu Hv).
    rewrite Ho. simpl. rewrite Hdb. simpl. do 2 f_equal.
    rewrite (matMul_one_column _ _ Hw), standardized_rows.
    unfold mmap. rewrite !map_map. done.
  - done.
  - unfold classify. by rewrite t_greater_irrefl.
Qed.

Lemma transpose_singletons {A} (f : A -> F) (l : list A) :
  l <> [] -> transpose (map (fun a => [f a]) l) = [map f l].
Proof.
  intros Hl. rewrite transpose_one_column by (by destruct l).
  unfold column. by rewrite map_map.
Qed.

Lemma column0_mmap (g : F -> F) (x : matrix F) :
  is_column x -> column 0 (map (map g) x) = map g (column 0 x).
Proof.
  intros Hx. unfold column. rewrite !map_map.
  apply map_ext_in. intros [|a r] Hr; [|done].
  unfold is_column in Hx. rewrite Forall_forall in Hx.
  apply list_elem_of_In, Hx in Hr. done.
Qed.

(** C5. On a model with [n >= 1] training rows, a label column of [n]
    rows and a weight column with one entry for each feature column,
    [recordCost] puts one new entry in the cost history and keeps the
    others: in exact arithmetic the entry is
    [-(1/n) * (y^T * log p + (1 - y)^T * log (1 - p))] with
    [p = sigmoid (X * w)] over all [n] rows of the training features [X],
    [y] the label column and [w] the weight column. *)
Theorem recordCost_cross_entropy `{!ExactScalar F} m :
  features m <> [] -> length (labels m) = length (features m) ->
  is_column (labels m) ->
  Forall (fun r => length r = length (weights m)) (features m) ->
  weights m <> [] -> is_column (weights m) ->
  recordCost m =
  Some (set_costHistory
          (cross_entropy (features m) (column 0 (labels m))
                         (column 0 (weights m)) :: costHistory m) m).
Proof.
  intros Hx Hylen Hy _ Hwne Hwcol.
  assert (labels m <> []) as Hyne.
  { intros E. rewrite E in Hylen. by destruct (features m). }
  assert (ncols (weights m) = 1%nat) as Hw.
  { destruct (weights m) as [|r w]; [done|]. by inversion Hwcol. }
  unfold recordCost, cost_of.
  assert (ncols (labels m) = 1%nat) as Hcl.
  { destruct (labels m) as [|r l]; [done|]. by inversion Hy. }
  set (p := map (fun row => t_sigmoid (dot row (column 0 (weights m))))
                (features m)).
  assert (p <> []) as Hp by (unfold p; by destruct (features m)).
  assert (mmap t_sigmoid (matMul (features m) (weights m))
          = map (fun q => [q]) p) as ->.
  { rewrite (matMul_one_column _ _ Hw). unfold mmap, p.
    by rewrite !map_map. }
  assert (mscalar t_add (mscalar t_mul (labels m) (lit (-1)%Q)) one
          = mmap (t_sub one) (labels m)) as ->.
  { unfold mscalar, mmap. rewrite map_map. apply map_ext. intros r.
    rewrite map_map. apply map_ext. intros a. apply t_one_minus. }
  assert (mmap t_log (map (fun q => [q]) p) = map (fun q => [t_log q]) p)
    as -> by (unfold mmap; by rewrite map_map).
  assert (mmap t_log
            (mscalar t_add
               (mscalar t_mul (map (fun q => [q]) p) (lit (-1)%Q)) one)
          = map (fun q => [t_log (t_sub one q)]) p) as ->.
  { unfold mscalar, mmap. rewrite !map_map. apply map_ext. intros q.
    simpl. by rewrite t_one_minus. }
  unfold matMul.
  rewrite !transpose_singletons by done.
  rewrite !transpose_one_column by (by rewrite ?ncols_mmap).
  unfold mmap at 1. rewrite column0_mmap by done.
  simpl. rewrite t_neg_mean. done.
Qed.
End Prediction.

(** ** The real numbers satisfy the laws of exact arithmetic *)

#[export] Instance xreal_greater : StrictGreater xreal.
Proof.
  split; intros [a|]; simpl; try reflexivity;
    destruct (Rgt_dec a a); (lra || reflexivity).
Qed.

#[export] Instance xreal_exact : ExactScalar xreal.
Proof.
  split.
  - intros [a|] [b|]; simpl; try reflexivity. f_equal. lra.
  - intros [y|]; simpl; try reflexivity. f_equal. unfold Q2R; simpl. lra.
  - intros [s|] [n|]; simpl; try reflexivity.
    + destruct (Req_dec_T n 0); simpl; try reflexivity.
      destruct (Req_dec_T n 0); [contradiction|]. simpl. f_equal.
      unfold Q2R; simpl. field. assumption.
    + destruct (Req_dec_T n 0); reflexivity.
Qed.

(** ** The training run, evaluated *)

Section RunFacts.
Import XReal.
#[local] Open Scope R_scope.

Lemma sg_pos z : 0 < sg z.
Proof.
  unfold sg. pose proof (exp_pos (- z)). apply Rdiv_lt_0_compat; lra.
Qed.

Lemma sg_lt_1 z : sg z < 1.
Proof.
  unfold sg. pose proof (exp_pos (- z)).
  apply Rmult_lt_reg_r with (1 + exp (- z)); [lra|].
  unfold Rdiv. rewrite Rmult_assoc, Rinv_l by lra. lra.
Qed.

Lemma sg_increasing a b : a < b -> sg a < sg b.
Proof.
  intros Hab. unfold sg.
  pose proof (exp_pos (- a)). pose proof (exp_pos (- b)).
  assert (exp (- b) < exp (- a)) by (apply exp_increasing; lra).
  unfold Rdiv. rewrite !Rmult_1_l. apply Rinv_lt_contravar; nra.
Qed.

Lemma sg_0 : sg 0 = / 2.
Proof. unfold sg. rewrite Ropp_0, exp_0. lra. Qed.

Lemma Rpower_1_base y : Rpower 1 y = 1.
Proof. unfold Rpower. by rewrite ln_1, Rmult_0_r, exp_0. Qed.

Lemma Q2R_consts :
  Q2R 0 = 0 /\ Q2R 1 = 1 /\ Q2R (-1) = -1 /\ Q2R 2 = 2 /\
  Q2R 0.5 = / 2 /\ Q2R 1.05 = 21 / 20 /\ Q2R (inject_Z (Z.of_nat 2)) = 2.
Proof.
  change (Z.of_nat 2) with 2%Z. unfold Q2R. cbn. repeat split; lra.
Qed.

(** Rewrite the literals of the source to real constants. *)
Ltac q2r :=
  destruct Q2R_consts as (Q0 & Q1 & Qm1 & Q2 & Qh & Q105 & Qn2);
  rewrite ?Q0, ?Q1, ?Qm1, ?Q2, ?Qh, ?Q105, ?Qn2;
  clear Q0 Q1 Qm1 Q2 Qh Q105 Qn2.

(** Bring the bounds of every logistic value of the goal into the context. *)
Ltac sg_facts :=
  repeat match goal with
  | |- context [sg ?e] =>
      lazymatch goal with
      | _ : 0 < sg e |- _ => fail
      | _ => pose proof (sg_pos e); pose proof (sg_lt_1 e)
      end
  end.

(** Settle one test of the interpretation: a divisor is not 0, the
    argument of a logarithm or the base of a power is positive. *)
Ltac decide_test :=
  match goal with
  | |- context [Req_dec_T ?a 0] =>
      destruct (Req_dec_T a 0); [exfalso; lra|]
  | |- context [Rlt_dec 0 ?a] =>
      destruct (Rlt_dec 0 a); [|exfalso; lra]
  end.

Ltac xeval := cbn; q2r; sg_facts; repeat (decide_test; cbn).

(** Reduce an equation between structures of numbers to equations in R. *)
Ltac struct_eq :=
  repeat lazymatch goal with
         | |- @eq R _ _ => fail
         | |- _ => f_equal
         end.

Lemma moments_run : moments0 Run.x = ([Real 0], [Real 1]).
Proof. unfold moments0, Run.x. xeval. struct_eq; lra. Qed.

Lemma standardized_run : standardized [Real 0] [Real 1] Run.x = Run.std_x.
Proof.
  unfold standardized, Run.x, Run.std_x. xeval.
  rewrite Rpower_1_base. xeval. struct_eq; lra.
Qed.

Lemma constructor_run :
  constructor Run.h0 Run.x Run.y (Some 0%nat) = (Run.h0, Run.model 0 0 []).
Proof.
  pose proof (constructor_model Run.h0 Run.x Run.y (Some 0%nat)) as E.
  rewrite moments_run in E. cbn [fst snd] in E.
  rewrite standardized_run in E.
  destruct (constructor Run.h0 Run.x Run.y (Some 0%nat)) as [h m] eqn:Ec.
  cbn [snd] in E. f_equal.
  - unfold constructor in Ec. rewrite preprocessFeatures_blank in Ec.
    by injection Ec as <- _.
  - rewrite E. unfold Run.model, Run.y, Run.std_y. cbn. q2r. done.
Qed.

Lemma run_this_options (h : heap xreal) o a b c :
  h !! 0%nat = Some o -> this_options h (Run.model a b c) = Some o.
Proof. done. Qed.

Lemma gradientDescent_run (h : heap xreal) o r a b c :
  h !! 0%nat = Some o -> learningRate o = Some (Real r) ->
  gradientDescent h (Run.model a b c) Run.std_x Run.std_y =
  Some (Run.model (Run.step_a a b r) (Run.step_b a b r) c).
Proof.
  intros Ho Hr. unfold gradientDescent. rewrite (run_this_options _ _ _ _ _ Ho).
  cbn [mbind option_bind]. rewrite Hr. cbn [mbind option_bind].
  unfold Run.model, Run.step_a, Run.step_b, set_weights, Run.std_x, Run.std_y.
  cbn. q2r.
  replace (1 * a + (-1 * b + 0)) with (a - b) by lra.
  replace (1 * a + (1 * b + 0)) with (a + b) by lra.
  decide_test. cbn. struct_eq; lra.
Qed.

Lemma cost_of_run a b c :
  cost_of (Run.model a b c) = Some (Real (Run.cost a b)).
Proof.
  unfold cost_of, Run.model, Run.cost, Run.std_x, Run.std_y.
  cbn. q2r.
  replace (1 * a + (-1 * b + 0)) with (a - b) by lra.
  replace (1 * a + (1 * b + 0)) with (a + b) by lra.
  replace (sg (a - b) * -1 + 1) with (1 - sg (a - b)) by lra.
  replace (sg (a + b) * -1 + 1) with (1 - sg (a + b)) by lra.
  sg_facts. repeat (decide_test; cbn). struct_eq. lra.
Qed.

Lemma recordCost_run a b c :
  recordCost (Run.model a b c) =
  Some (Run.model a b (Real (Run.cost a b) :: c)).
Proof. unfold recordCost. by rewrite cost_of_run. Qed.

(** One pass over the run's model: one gradient step on the one batch,
    the cost, and then the learning-rate controller. *)
Lemma epoch_run (h : heap xreal) o r a b c :
  h !! 0%nat = Some o -> learningRate o = Some (Real r) ->
  batchSize o = Some 2%Z ->
  epoch (Fin 1) h (Run.model a b c) =
  optimizeLearningRate h
    (Run.model (Run.step_a a b r) (Run.step_b a b r)
       (Real (Run.cost (Run.step_a a b r) (Run.step_b a b r)) :: c)).
Proof.
  intros Ho Hr Hbs. unfold epoch. cbn [batch_loop].
  change (Z.to_nat 1) with 1%nat. cbn [batch_iter]. unfold batch_step.
  rewrite (run_this_options _ _ _ _ _ Ho). cbn [mbind option_bind]. rewrite Hbs.
  cbn [mbind option_bind].
  change (slice_rows (0 * 2) 2 (features (Run.model a b c)))
    with (Some Run.std_x).
  change (slice_rows (0 * 2) 2 (labels (Run.model a b c)))
    with (Some Run.std_y).
  cbn [mbind option_bind]. rewrite (gradientDescent_run _ _ _ _ _ _ Ho Hr). cbn [mbind option_bind].
  rewrite recordCost_run. done.
Qed.

Lemma weights_run :
  Run.a1 = 0 /\ Run.b1 = / 2 /\ / 2 < Run.a2 + Run.b2 /\
  Run.a2 - Run.b2 < - / 2.
Proof.
  assert (Run.a1 = 0 /\ Run.b1 = / 2) as [E1 E2].
  { unfold Run.a1, Run.b1, Run.step_a, Run.step_b.
    replace (0 - 0) with 0 by lra. replace (0 + 0) with 0 by lra.
    rewrite sg_0. lra. }
  split; [done|]. split; [done|].
  unfold Run.a2, Run.b2, Run.step_a, Run.step_b. rewrite E1, E2.
  pose proof (sg_pos (0 - / 2)). pose proof (sg_lt_1 (0 + / 2)). lra.
Qed.

(** The second pass lowers the cost. *)
Lemma cost_run_decreases : Run.cost2 < Run.cost1.
Proof.
  destruct weights_run as (E1 & E2 & Hs & Hd).
  unfold Run.cost2, Run.cost1, Run.cost. rewrite E1, E2.
  assert (sg (0 + / 2) < sg (Run.a2 + Run.b2)) by (apply sg_increasing; lra).
  assert (sg (Run.a2 - Run.b2) < sg (0 - / 2)) by (apply sg_increasing; lra).
  assert (ln (sg (0 + / 2)) < ln (sg (Run.a2 + Run.b2)))
    by (apply ln_increasing; [apply sg_pos|done]).
  assert (ln (1 - sg (0 - / 2)) < ln (1 - sg (Run.a2 - Run.b2))).
  { apply ln_increasing; [|lra]. pose proof (sg_lt_1 (0 - / 2)). lra. }
  lra.
Qed.

Lemma epoch1_run :
  epoch (Fin 1) Run.h0 (Run.model 0 0 []) =
  Some (Run.h0, Run.model Run.a1 Run.b1 [Real Run.cost1]).
Proof.
  rewrite (epoch_run Run.h0 Run.caller_options 1); try done.
  unfold Run.caller_options. cbn. q2r. done.
Qed.

Lemma epoch2_run :
  epoch (Fin 1) Run.h0 (Run.model Run.a1 Run.b1 [Real Run.cost1]) =
  Some (Run.h2, Run.model Run.a2 Run.b2 [Real Run.cost2; Real Run.cost1]).
Proof.
  rewrite (epoch_run Run.h0 Run.caller_options 1); try done.
  - unfold optimizeLearningRate. cbn -[Run.h0 Run.h2 Run.cost Run.step_a Run.step_b].
    fold Run.a2 Run.b2. fold Run.cost2 Run.cost1.
    change (Run.h0 !! 0%nat) with (Some Run.caller_options). cbn [mbind option_bind].
    pose proof cost_run_decreases.
    destruct (Rgt_dec Run.cost2 Run.cost1); [lra|].
    unfold Run.h2, set_learningRate, Run.caller_options. cbn. q2r. done.
  - unfold Run.caller_options. cbn. q2r. done.
Qed.

Lemma after_epochs_run :
  after_epochs 1 (Fin 1) Run.h0 (Run.model 0 0 [])
    = Some (Run.h0, Run.model Run.a1 Run.b1 [Real Run.cost1]) /\
  after_epochs 2 (Fin 1) Run.h0 (Run.model 0 0 [])
    = Some (Run.h2, Run.model Run.a2 Run.b2 [Real Run.cost2; Real Run.cost1]).
Proof.
  assert (after_epochs 1 (Fin 1) Run.h0 (Run.model 0 0 [])
          = Some (Run.h0, Run.model Run.a1 Run.b1 [Real Run.cost1])) as E1.
  { cbn [after_epochs]. cbn [mbind option_bind]. apply epoch1_run. }
  split; [done|].
  change (after_epochs 2 (Fin 1) Run.h0 (Run.model 0 0 []))
    with ('(h', m') ← after_epochs 1 (Fin 1) Run.h0 (Run.model 0 0 []);
          epoch (Fin 1) h' m').
  rewrite E1. cbn [mbind option_bind]. apply epoch2_run.
Qed.

Lemma train_run :
  train Run.h0 (Run.model 0 0 []) =
  Some (Run.h2, Run.model Run.a2 Run.b2 [Real Run.cost2; Real Run.cost1]).
Proof.
  rewrite (train_after_epochs _ _ Run.caller_options) by done.
  apply after_epochs_run.
Qed.
End RunFacts.

(** ** The properties on the training run *)

Section RunInstances.
Import XReal.

Lemma constructed_train_run :
  train (constructor Run.h0 Run.x Run.y (Some 0%nat)).1
        (constructor Run.h0 Run.x Run.y (Some 0%nat)).2
  = Some (Run.h2, Run.m2).
Proof. rewrite constructor_run. exact train_run. Qed.

Lemma well_shaped_run a b c : well_shaped (Run.model a b c).
Proof.
  unfold well_shaped, is_column. simpl.
  split; [done|]. split; [by repeat constructor|].
  split; [done|]. split; [by repeat constructor|done].
Qed.

(** C1 as stated fails on the run: read as "the entry at index [i] is the
    cost of pass [i]", the history of the two passes would begin with the
    first cost; it begins with the second, which is smaller. *)
Lemma costHistory_chronological_counterexample :
  exists h' m',
    train (constructor Run.h0 Run.x Run.y (Some 0%nat)).1
          (constructor Run.h0 Run.x Run.y (Some 0%nat)).2 = Some (h', m') /\
    ~ (forall i, (i < 2)%nat ->
         costHistory m' !! i =
         epoch_cost (floor_div 2 (Some 2)) Run.h0
           (constructor Run.h0 Run.x Run.y (Some 0%nat)).2 i).
Proof.
  exists Run.h2, Run.m2. split; [exact constructed_train_run|].
  intros Hall. specialize (Hall 0%nat ltac:(lia)).
  rewrite constructor_run in Hall. cbn [snd] in Hall.
  unfold epoch_cost in Hall.
  change (floor_div 2 (Some 2)) with (Fin 1) in Hall.
  rewrite (proj1 after_epochs_run) in Hall. cbn [mbind option_bind] in Hall.
  rewrite cost_of_run in Hall. fold Run.cost1 in Hall.
  injection Hall as Hall. pose proof cost_run_decreases. lra.
Qed.

Lemma costHistory_newest_first_witness :
  costHistory Run.m2 !! 0%nat = epoch_cost (Fin 1) Run.h0 Run.m0 1 /\
  costHistory Run.m2 !! 1%nat = epoch_cost (Fin 1) Run.h0 Run.m0 0.
Proof.
  pose proof (proj2 (costHistory_newest_first Run.h0 Run.m0
                       Run.caller_options Run.h2 Run.m2 eq_refl train_run))
    as Hnewest.
  split.
  - exact (proj2 (Hnewest 0%nat (Nat.lt_0_succ 1))).
  - exact (proj2 (Hnewest 1%nat (Nat.lt_succ_diag_r 1))).
Defined.

(** C2 as stated fails on the run: after [train] the record the caller
    passed holds another [learningRate] than the one it was given. *)
Lemma caller_options_counterexample :
  exists h' m' o',
    train (constructor Run.h0 Run.x Run.y (Some 0%nat)).1
          (constructor Run.h0 Run.x Run.y (Some 0%nat)).2 = Some (h', m') /\
    Run.h0 !! 0%nat = Some Run.caller_options /\
    h' !! 0%nat = Some o' /\
    learningRate o' <> learningRate Run.caller_options.
Proof.
  exists Run.h2, Run.m2. eexists.
  split; [exact constructed_train_run|]. split; [done|].
  split; [apply lookup_insert_eq|].
  simpl. intros E. injection E as E. unfold Q2R in E. simpl in E.
  lra.
Qed.

Lemma optimizeLearningRate_rule_witness :
  optimizeLearningRate Run.h0 Run.m2 =
  Some (<[0%nat := mkOptions
                     (Some (if js_gt (Real Run.cost2) (Real Run.cost1)
                            then js_div (lit 1%Q) (lit 2%Q)
                            else js_mul (lit 1%Q) (lit 1.05%Q)))
                     (Some 2) (Some 2) (Some (lit 0.5%Q))]> Run.h0,
        Run.m2).
Proof.
  exact (proj1 (proj2 (optimizeLearningRate_rule Run.h0 Run.m2 0%nat
                         Run.caller_options (lit 1%Q) eq_refl eq_refl eq_refl))
               (Real Run.cost2) (Real Run.cost1) [] eq_refl).
Defined.

Lemma recordCost_cross_entropy_witness :
  recordCost Run.m1 =
  Some (set_costHistory
          (cross_entropy Run.std_x [Real 0; Real 1]
                         [Real Run.a1; Real Run.b1]
           :: [Real Run.cost1]) Run.m1).
Proof.
  apply (recordCost_cross_entropy Run.m1).
  - discriminate.
  - reflexivity.
  - repeat constructor.
  - repeat constructor.
  - discriminate.
  - repeat constructor.
Defined.

Lemma moments_computed_once_witness :
  mean Run.m2 = Some (moments0 Run.x).1 /\
  variance Run.m2 = Some (moments0 Run.x).2 /\
  forall obs,
    preprocessFeatures Run.m2 obs =
    (Run.m2, standardized (moments0 Run.x).1 (moments0 Run.x).2 obs).
Proof.
  apply (moments_computed_once Run.h0 Run.x Run.y (Some 0%nat)
           (Run.h2, Run.m2)).
  eapply calls_step; [apply calls_refl|].
  rewrite constructor_run. apply call_train. exact train_run.
Defined.

Lemma train_cost_history_length_witness :
  let '(h0, m0) := constructor Run.h0 Run.x Run.y (Some 0%nat) in
  exists h1 m1 h2 m2,
    train h0 m0 = Some (h1, m1) /\
    length (costHistory m1) = Z.to_nat 2 /\
    train h1 m1 = Some (h2, m2) /\
    length (costHistory m2) = (2 * Z.to_nat 2)%nat.
Proof.
  apply (train_cost_history_length Run.h0 Run.x Run.y 0%nat
           (lit 1%Q) (lit 0.5%Q) 2 2).
  - discriminate.
  - reflexivity.
  - repeat constructor.
  - reflexivity.
  - lia.
  - lia.
Defined.

Lemma predict_threshold_witness :
  predict Run.h0 Run.m2 Run.x =
    Some (Run.m2,
          map (fun r =>
                 [classify (lit 0.5%Q)
                    (probability [Real 0] [Real 1]
                       (column 0 (weights Run.m2)) r)])
              Run.x) /\
  (forall p : xreal,
     classify (lit 0.5%Q) p =
     (if t_greater p (lit 0.5%Q) then lit 1%Q else lit 0%Q)) /\
  classify (lit 0.5%Q) (lit 0.5%Q) = lit 0%Q.
Proof.
  apply (predict_threshold Run.h0 Run.m2 Run.caller_options (lit 0.5%Q)
           [Real 0] [Real 1] Run.x); try reflexivity.
  - repeat constructor.
  - repeat constructor.
Defined.

Lemma constructor_defaults_witness :
  (let '(h0, m0) := constructor Run.h_partial Run.x Run.y None in
   exists l0, Run.h_partial !! l0 = None /\ options m0 = Some l0 /\
     h0 = <[l0 := mkOptions (Some (lit 0.1%Q)) (Some 1000) (Some 1)
                            (Some (lit 0.5%Q))]> Run.h_partial) /\
  (let '(h0, m0) := constructor Run.h_partial Run.x Run.y (Some 0%nat) in
   h0 = Run.h_partial /\ this_options h0 m0 = Some Run.partial_options /\
   train h0 m0 = Some (h0, m0) /\
   weights m0 = repeat [lit 0%Q] (ncols (features m0)) /\
   costHistory m0 = []).
Proof.
  exact (constructor_defaults Run.h_partial Run.x Run.y 0%nat
           Run.partial_options eq_refl eq_refl).
Defined.
End RunInstances.

(** ** Further properties of the model *)

Section MoreTraining.
Context {F : Type} `{Scalar F}.
Implicit Types (h : heap F) (m : Model F) (o : Options F).

(** X1. Whatever the model holds, [preprocessFeatures] returns as many rows
    as it is given, each beginning with the constant 1.0 of the bias; for
    inputs of [c] columns, with stored moments of that size if any are
    stored, every row has [c + 1] entries. *)
Theorem preprocessFeatures_bias_column m (x : matrix F) (c : nat) :
  Forall (fun r => length r = c) x ->
  (forall mu v, mean m = Some mu -> variance m = Some v ->
                length mu = c /\ length v = c) ->
  length (preprocessFeatures m x).2 = length x /\
  Forall (fun r => head r = Some (lit 1%Q) /\ length r = S c)
         (preprocessFeatures m x).2.
Proof.
  intros Hx Hm.
  assert (exists mu v, (preprocessFeatures m x).2 = standardized mu v x /\
                       (x <> [] -> length mu = c /\ length v = c))
    as (mu & v & -> & Hlen).
  { destruct (mean m) as [mu|] eqn:Emu, (variance m) as [v|] eqn:Ev.
    - exists mu, v. rewrite (preprocessFeatures_stored _ _ _ _ Emu Ev).
      split; [done|]. intros _. by apply Hm.
    - exists (moments0 x).1, (moments0 x).2. split.
      + unfold preprocessFeatures, standardize, standardized, mrow, nrows.
        rewrite Emu, Ev. simpl. by rewrite !length_map.
      + intros Hne. unfold moments0. simpl.
        rewrite !length_map, nrows_transpose.
        destruct x as [|r x]; [done|]. by inversion Hx.
    - exists (moments0 x).1, (moments0 x).2. split.
      + unfold preprocessFeatures, standardize, standardized, mrow, nrows.
        rewrite Emu. simpl. by rewrite !length_map.
      + intros Hne. unfold moments0. simpl.
        rewrite !length_map, nrows_transpose.
        destruct x as [|r x]; [done|]. by inversion Hx.
    - exists (moments0 x).1, (moments0 x).2. split.
      + unfold preprocessFeatures, standardize, standardized, mrow, nrows.
        rewrite Emu. simpl. by rewrite !length_map.
      + intros Hne. unfold moments0. simpl.
        rewrite !length_map, nrows_transpose.
        destruct x as [|r x]; [done|]. by inversion Hx. }
  rewrite standardized_rows. split; [by rewrite length_map|].
  apply Forall_map. destruct x as [|r0 x0]; [done|].
  destruct Hlen as [Hmu Hv]; [done|].
  eapply Forall_impl; [exact Hx|]. intros r Hr. simpl. split; [done|].
  by rewrite !length_zip_with, length_map, Hr, Hmu, Hv, !Nat.min_id.
Qed.
End MoreTraining.

(** ** The shape of the weights *)

Section WeightShape.
Context {F : Type} `{Scalar F}.
Implicit Types (h : heap F) (m : Model F) (o : Options F).

Lemma is_column_mzip (f : F -> F -> F) (a b : matrix F) :
  is_column a -> is_column b -> is_column (mzip f a b).
Proof.
  unfold is_column, mzip. intros Ha. revert b.
  induction Ha as [|r a Hr Ha IH]; intros [|s b] Hb; simpl; try constructor.
  - inversion Hb; subst. rewrite length_zip_with. lia.
  - apply IH. by inversion Hb.
Qed.

Lemma is_column_mscalar (f : F -> F -> F) (a : matrix F) (c : F) :
  is_column a -> is_column (mscalar f a c).
Proof.
  unfold is_column, mscalar. intros Ha. apply Forall_map.
  eapply Forall_impl; [exact Ha|]. intros r Hr. simpl. by rewrite length_map.
Qed.

Lemma is_column_matMul (a b : matrix F) :
  ncols b = 1%nat -> is_column (matMul a b).
Proof.
  intros Hb. unfold is_column, matMul. apply Forall_map, Forall_true.
  intros r. simpl. by rewrite length_map, nrows_transpose.
Qed.

Lemma column_of_ncols (k : nat) (w : matrix F) :
  (0 < k)%nat -> column_of k w -> ncols w = 1%nat.
Proof.
  intros Hk [Hlen Hcol]. destruct w as [|r w]; simpl in *; [lia|].
  by inversion Hcol.
Qed.

Lemma gradientDescent_column (k : nat) h m (x y : matrix F) m' :
  (0 < k)%nat -> column_of k (weights m) ->
  x <> [] -> ncols x = k -> ncols y = 1%nat ->
  gradientDescent h m x y = Some m' ->
  column_of k (weights m').
Proof.
  intros Hk Hw Hx Hcx Hcy. pose proof (column_of_ncols _ _ Hk Hw) as Hcw.
  unfold gradientDescent. intros E.
  destruct (this_options h m) as [o|]; simpl in E; [|discriminate].
  destruct (learningRate o) as [lr|]; simpl in E; [|discriminate].
  injection E as <-. simpl. destruct Hw as [Hlen Hcol]. split.
  - unfold mzip, mscalar. rewrite length_zip_with, !length_map.
    rewrite nrows_matMul, nrows_transpose. lia.
  - apply is_column_mzip; [done|]. do 2 apply is_column_mscalar.
    apply is_column_matMul.
    rewrite ncols_mzip, ncols_mmap, ncols_matMul by done. lia.
Qed.

Lemma slice_rows_Some (start size : Z) (x s : matrix F) :
  1 <= size -> slice_rows start size x = Some s ->
  s = take (Z.to_nat size) (drop (Z.to_nat start) x) /\
  0 <= start /\ start + size <= Z.of_nat (length x).
Proof.
  intros Hsize. unfold slice_rows.
  destruct (0 <=? start) eqn:E1; simpl; [|discriminate].
  destruct (start <=? Z.of_nat (length x)) eqn:E2; simpl; [|discriminate].
  assert ((size =? -1) = false) as -> by (apply Z.eqb_neq; lia).
  destruct (0 <=? size) eqn:E3; simpl; [|discriminate].
  destruct (start + size <=? Z.of_nat (length x)) eqn:E4; simpl;
    [|discriminate].
  intros [= <-]. apply Z.leb_le in E1, E4. done.
Qed.

Lemma slice_first_row (start size : Z) (x s : matrix F) (P : list F -> Prop) :
  1 <= size -> slice_rows start size x = Some s -> Forall P x ->
  exists r rest, s = r :: rest /\ P r.
Proof.
  intros Hsize Hs HP.
  destruct (slice_rows_Some _ _ _ _ Hsize Hs) as (-> & H0 & Hle).
  assert (Z.to_nat start < length x)%nat as Hlt by lia.
  destruct (lookup_lt_is_Some_2 _ _ Hlt) as [r Hr].
  rewrite (drop_S _ _ _ Hr).
  destruct (Z.to_nat size) as [|k] eqn:Ek; [lia|]. simpl.
  exists r, (take k (drop (S (Z.to_nat start)) x)). split; [done|].
  by eapply Forall_lookup_1.
Qed.

Lemma batch_step_column (k : nat) h (j : Z) m m' o (bs : Z) :
  (0 < k)%nat -> this_options h m = Some o -> batchSize o = Some bs ->
  1 <= bs ->
  Forall (fun r => length r = k) (features m) -> is_column (labels m) ->
  column_of k (weights m) ->
  batch_step h j m = Some m' -> column_of k (weights m').
Proof.
  intros Hk Ho Hbs Hpos Hf Hl Hw. unfold batch_step. rewrite Ho. simpl.
  rewrite Hbs. simpl. intros E.
  destruct (slice_rows (j * bs) bs (features m)) as [x|] eqn:Ex; simpl in E;
    [|discriminate].
  destruct (slice_rows (j * bs) bs (labels m)) as [y|] eqn:Ey; simpl in E;
    [|discriminate].
  destruct (slice_first_row _ _ _ _ _ Hpos Ex Hf) as (r & xs & -> & Hr).
  destruct (slice_first_row _ _ _ _ _ Hpos Ey Hl) as (s & ys & -> & Hs).
  by eapply (gradientDescent_column k h m (r :: xs) (s :: ys)).
Qed.

Lemma batch_iter_column (n k : nat) h (j : Z) m m' o (bs : Z) :
  (0 < k)%nat -> this_options h m = Some o -> batchSize o = Some bs ->
  1 <= bs ->
  Forall (fun r => length r = k) (features m) -> is_column (labels m) ->
  column_of k (weights m) ->
  batch_iter n h j m = Some m' -> column_of k (weights m').
Proof.
  intros Hk Ho Hbs Hpos. revert j m Ho.
  induction n as [|n IH]; intros j m Ho Hf Hl Hw; simpl.
  - by intros [= <-].
  - destruct (batch_step h j m) as [m1|] eqn:E1; simpl; [|discriminate].
    pose proof (batch_step_column _ _ _ _ _ _ _ Hk Ho Hbs Hpos Hf Hl Hw E1)
      as Hw1.
    apply batch_step_frame in E1 as [w1 ->]. by apply IH.
Qed.

(** The quotient of a row count by a batch size that is not positive is
    not positive. *)
Lemma floor_div_positive (rows : nat) (bs q : Z) :
  floor_div rows (Some bs) = Fin q -> 1 <= q -> 1 <= bs.
Proof.
  unfold floor_div. destruct (bs =? 0) eqn:E0.
  { destruct (Z.of_nat rows =? 0); discriminate. }
  apply Z.eqb_neq in E0. intros [= <-] Hq.
  destruct (Z_lt_le_dec bs 0) as [Hneg|]; [|lia].
  pose proof (Z.div_mod (Z.of_nat rows) bs E0).
  pose proof (Z.mod_neg_bound (Z.of_nat rows) bs Hneg). nia.
Qed.

Lemma batch_loop_column (k : nat) h m m' o :
  (0 < k)%nat -> this_options h m = Some o ->
  Forall (fun r => length r = k) (features m) -> is_column (labels m) ->
  column_of k (weights m) ->
  batch_loop (floor_div (nrows (features m)) (batchSize o)) h m = Some m' ->
  column_of k (weights m').
Proof.
  intros Hk Ho Hf Hl Hw.
  destruct (floor_div (nrows (features m)) (batchSize o)) as [q| |] eqn:Eq;
    simpl; [|discriminate|by intros [= <-]].
  destruct (Z.to_nat q) as [|n] eqn:En; [by intros [= <-]|].
  destruct (batchSize o) as [bs|] eqn:Ebs; [|discriminate].
  assert (1 <= bs) by (eapply floor_div_positive; [exact Eq|lia]).
  by eapply batch_iter_column.
Qed.

Lemma epoch_column (k : nat) h m h' m' o :
  (0 < k)%nat -> this_options h m = Some o ->
  Forall (fun r => length r = k) (features m) -> is_column (labels m) ->
  column_of k (weights m) ->
  epoch (floor_div (nrows (features m)) (batchSize o)) h m = Some (h', m') ->
  column_of k (weights m').
Proof.
  intros Hk Ho Hf Hl Hw. unfold epoch. intros E.
  destruct (batch_loop _ h m) as [m1|] eqn:E1; simpl in E; [|discriminate].
  pose proof (batch_loop_column _ _ _ _ _ Hk Ho Hf Hl Hw E1) as Hw1.
  destruct (recordCost m1) as [m2|] eqn:E2; simpl in E; [|discriminate].
  apply recordCost_frame in E2 as [c ->].
  by rewrite (optimizeLearningRate_model _ _ _ _ E).
Qed.

Lemma after_epochs_column (n k : nat) h m h' m' o :
  (0 < k)%nat -> this_options h m = Some o ->
  Forall (fun r => length r = k) (features m) -> is_column (labels m) ->
  column_of k (weights m) ->
  after_epochs n (floor_div (nrows (features m)) (batchSize o)) h m
    = Some (h', m') ->
  column_of k (weights m').
Proof.
  intros Hk Ho Hf Hl Hw. revert h' m'.
  induction n as [|n IH]; intros h' m'; simpl; [by intros [= <- <-]|].
  destruct (after_epochs n _ h m) as [[h1 m1]|] eqn:E1; simpl; [|discriminate].
  intros E. pose proof (IH _ _ eq_refl) as Hw1.
  pose proof Ho as Ho'. unfold this_options in Ho'.
  destruct (options m) as [l|] eqn:El; simpl in Ho'; [|done].
  destruct (after_epochs_frame _ _ _ _ _ _ _ E1 El)
    as ((Ef & Ela & Eo & _) & (_ & Hh) & _).
  destruct (Hh _ Ho') as (rate & Hrate & _).
  eapply (epoch_column k h1 m1 h' m'); try done.
  - unfold this_options. rewrite Eo, El. simpl. exact Hrate.
  - by rewrite Ef.
  - by rewrite Ela.
  - simpl. by rewrite Ef.
Qed.

Lemma train_column (k : nat) h m h' m' :
  (0 < k)%nat ->
  Forall (fun r => length r = k) (features m) -> is_column (labels m) ->
  column_of k (weights m) ->
  train h m = Some (h', m') -> column_of k (weights m').
Proof.
  intros Hk Hf Hl Hw E.
  destruct (this_options h m) as [o|] eqn:Ho.
  - rewrite (train_after_epochs _ _ _ Ho) in E.
    by eapply after_epochs_column.
  - unfold train in E. by rewrite Ho in E.
Qed.

Lemma predict_same_data h m (obs : matrix F) m' out :
  predict h m obs = Some (m', out) ->
  features m' = features m /\ labels m' = labels m /\ weights m' = weights m.
Proof.
  unfold predict, preprocessFeatures, standardize. intros E.
  destruct (mean m), (variance m); simpl in E;
    (destruct (this_options h _) as [o|]; simpl in E; [|discriminate];
     destruct (decisionBoundary o); simpl in E; [|discriminate];
     by injection E as <- _).
Qed.

(** X2. The weights of a model built from [c] feature columns are a column
    of [c + 1] numbers, the bias weight first, and stay one whatever the
    scripts' calls of [train], [predict] and [test] do. *)
Theorem weights_shape_invariant h (x y : matrix F) (opts : option loc)
    (c : nat) (s : heap F * Model F) :
  x <> [] -> Forall (fun r => length r = c) x -> is_column y ->
  session (constructor h x y opts) s ->
  length (weights s.2) = S c /\ is_column (weights s.2).
Proof.
  intros Hx Hc Hy Hs.
  assert (Forall (fun r => length r = S c) (features s.2) /\
          is_column (labels s.2) /\ column_of (S c) (weights s.2))
    as (_ & _ & Hw); [|exact Hw].
  induction Hs as [|h1 m1 h2 m2 _ IH E|h1 m1 obs m2 out _ IH E
                  |h1 m1 tx ty m2 acc _ IH E].
  - rewrite constructor_model. cbn [features labels weights].
    assert (Forall (fun r => length r = S c)
              (standardized (moments0 x).1 (moments0 x).2 x)) as Hf.
    { rewrite standardized_rows. apply Forall_map.
      eapply Forall_impl; [exact Hc|]. intros r Hr. simpl.
      rewrite !length_zip_with, !length_map, nrows_transpose, Hr.
      destruct x as [|r0 x0]; [done|]. inversion Hc; subst. simpl. lia. }
    split; [done|]. split; [done|].
    assert (ncols (standardized (moments0 x).1 (moments0 x).2 x) = S c)
      as ->.
    { destruct (standardized _ _ x) as [|r0 f0] eqn:Es.
      - rewrite standardized_rows in Es. by destruct x.
      - by inversion Hf. }
    unfold column_of, zeros, is_column. rewrite repeat_length.
    split; [done|]. apply Forall_forall. intros r Hr.
    apply list_elem_of_In, repeat_spec in Hr. by subst.
  - destruct IH as (Hf & Hl & Hw). simpl in *.
    destruct (train_same_data _ _ _ _ E) as (Ef & El & _).
    rewrite Ef, El. split; [done|]. split; [done|].
    eapply (train_column (S c)); [lia|exact Hf|exact Hl|exact Hw|exact E].
  - destruct IH as (Hf & Hl & Hw). simpl in *.
    destruct (predict_same_data _ _ _ _ _ E) as (-> & -> & ->). done.
  - destruct IH as (Hf & Hl & Hw). simpl in *. unfold test in E.
    destruct (predict h1 m1 tx) as [[m3 p]|] eqn:Ep; simpl in E;
      [|discriminate].
    injection E as <- _.
    destruct (predict_same_data _ _ _ _ _ Ep) as (-> & -> & ->). done.
Qed.
End WeightShape.

(** ** Repeated training, the learning rate and the plotted history *)

Section MoreLoops.
Context {F : Type} `{Scalar F}.
Implicit Types (h : heap F) (m : Model F) (o : Options F).

Lemma after_epochs_add (a b : nat) bq h m :
  after_epochs (a + b) bq h m =
  '(h1, m1) ← after_epochs a bq h m; after_epochs b bq h1 m1.
Proof.
  induction b as [|b IH].
  - rewrite Nat.add_0_r. simpl. by destruct (after_epochs a bq h m) as [[]|].
  - rewrite Nat.add_succ_r. cbn [after_epochs]. rewrite IH.
    destruct (after_epochs a bq h m) as [[h1 m1]|]; done.
Qed.

(** X3. A second [train] call continues the first one: the two calls
    together are twice [iterations] passes from the state before the first
    call, with the loop bound of the first call. *)
Theorem train_twice_continues h m o h1 m1 :
  this_options h m = Some o -> train h m = Some (h1, m1) ->
  train h1 m1 =
  after_epochs (2 * Z.to_nat (default 0 (iterations o)))
               (floor_div (nrows (features m)) (batchSize o)) h m.
Proof.
  intros Ho E. pose proof E as E'.
  rewrite (train_after_epochs _ _ _ Ho) in E.
  pose proof Ho as Ho'. unfold this_options in Ho'.
  destruct (options m) as [l|] eqn:El; simpl in Ho'; [|done].
  destruct (after_epochs_frame _ _ _ _ _ _ _ E El)
    as ((Ef & _ & Eo & _) & (_ & Hh) & _).
  destruct (Hh _ Ho') as (rate & Hrate & _).
  assert (this_options h1 m1 =
          Some (mkOptions rate (iterations o) (batchSize o)
                          (decisionBoundary o))) as Ho1.
  { unfold this_options. by rewrite Eo, El. }
  rewrite (train_after_epochs _ _ _ Ho1). cbn [iterations batchSize].
  rewrite Ef.
  replace (2 * Z.to_nat (default 0%Z (iterations o)))%nat
    with (Z.to_nat (default 0%Z (iterations o))
          + Z.to_nat (default 0%Z (iterations o)))%nat by lia.
  by rewrite after_epochs_add, E.
Qed.

(** X4. With a batch size of 0 and at least one training row the batch
    count is [Infinity]: [train] returns, having done nothing, when
    [iterations] is absent or not positive, and does not return when it is
    positive. *)
Theorem train_batchSize_zero h m o :
  this_options h m = Some o -> batchSize o = Some 0 -> features m <> [] ->
  (lt_prop 0 (iterations o) = false -> train h m = Some (h, m)) /\
  (lt_prop 0 (iterations o) = true -> train h m = None).
Proof.
  intros Ho Hbs Hf. unfold train. rewrite Ho. cbn [mbind option_bind].
  rewrite Hbs.
  assert (floor_div (nrows (features m)) (Some 0) = PInf) as ->.
  { unfold floor_div, nrows. simpl. by destruct (features m). }
  split; intros Hlt.
  - destruct (Z.to_nat (default 0 (iterations o))); cbn [epoch_loop].
    + rewrite Ho. cbn [mbind option_bind]. by rewrite Hlt.
    + rewrite Ho. cbn [mbind option_bind]. by rewrite Hlt.
  - destruct (iterations o) as [n|] eqn:Hn; [|done].
    assert (0 < n) as Hpos by (by apply Z.ltb_lt).
    change (default 0 (Some n)) with n.
    destruct (Z.to_nat n) as [|k] eqn:Ek; [lia|].
    cbn [epoch_loop]. rewrite Ho. cbn [mbind option_bind].
    by rewrite Hn, Hlt.
Qed.

(** What one pass does, spelled out: one new cost, the cost of the model
    as the pass leaves it, and the learning-rate rule on that cost and the
    one before it. *)
Lemma epoch_inv bq h m h' m' (l : loc) o (r : F) :
  epoch bq h m = Some (h', m') ->
  options m = Some l -> h !! l = Some o -> learningRate o = Some r ->
  exists w c,
    batch_loop bq h m = Some (set_weights w m) /\
    cost_of (set_weights w m) = Some c /\
    m' = set_costHistory (c :: costHistory m) (set_weights w m) /\
    h' = match costHistory m with
         | [] => h
         | previous :: _ =>
             <[l := set_learningRate
                      (if js_gt c previous then js_div r (lit 2%Q)
                       else js_mul r (lit 1.05%Q)) o]> h
         end.
Proof.
  unfold epoch. intros E El Ho Hr.
  destruct (batch_loop bq h m) as [m1|] eqn:E1; simpl in E; [|discriminate].
  destruct (batch_loop_frame _ _ _ _ E1) as [w ->].
  unfold recordCost in E.
  destruct (cost_of (set_weights w m)) as [c|] eqn:Ec; simpl in E;
    [|discriminate].
  exists w, c. split; [done|]. split; [done|].
  unfold optimizeLearningRate in E. simpl in E.
  destruct (costHistory m) as [|previous older]; simpl in E.
  - by injection E as <- <-.
  - rewrite El in E. simpl in E. rewrite Ho in E. simpl in E.
    rewrite Hr in E. simpl in E.
    destruct (js_gt c previous); by injection E as <- <-.
Qed.

Lemma set_learningRate_same o (r : F) :
  learningRate o = Some r -> set_learningRate r o = o.
Proof. destruct o; simpl. by intros ->. Qed.

Lemma set_learningRate_twice o (r r' : F) :
  set_learningRate r' (set_learningRate r o) = set_learningRate r' o.
Proof. done. Qed.

Lemma after_epochs_rate (k : nat) bq h m h' m' (l : loc) o (r : F) :
  options m = Some l -> h !! l = Some o -> learningRate o = Some r ->
  costHistory m = [] ->
  after_epochs k bq h m = Some (h', m') ->
  h' = <[l := set_learningRate (rate_of (costHistory m') r) o]> h.
Proof.
  intros El Ho Hr Hfresh. revert h' m'.
  induction k as [|k IH]; intros h' m'; simpl.
  - intros [= <- <-]. rewrite Hfresh. simpl.
    by rewrite (set_learningRate_same _ _ Hr), insert_id.
  - destruct (after_epochs k bq h m) as [[h1 m1]|] eqn:E1; simpl;
      [|discriminate].
    intros E. pose proof (IH _ _ eq_refl) as Hh1.
    destruct (after_epochs_frame _ _ _ _ _ _ _ E1 El) as ((_&_&Eo&_) & _ & _).
    assert (h1 !! l = Some (set_learningRate (rate_of (costHistory m1) r) o))
      as Ho1 by (rewrite Hh1; apply lookup_insert_eq).
    destruct (epoch_inv _ _ _ _ _ l
                (set_learningRate (rate_of (costHistory m1) r) o)
                (rate_of (costHistory m1) r) E)
      as (w & c & _ & _ & -> & ->); [congruence|exact Ho1|done|].
    simpl. destruct (costHistory m1) as [|previous older] eqn:Ec1.
    + exact Hh1.
    + rewrite Hh1 at 1. rewrite insert_insert_eq.
      by rewrite set_learningRate_twice.
Qed.

(** X6. After [train] on a fresh model the options object holds the
    learning rate that the recorded costs determine: the first pass leaves
    the rate alone, and every later pass halves it if its cost exceeds the
    cost of the pass before and multiplies it by 1.05 if not.  Nothing
    else in the heap changes. *)
Theorem train_learning_rate h m (l : loc) o (r : F) h' m' :
  options m = Some l -> h !! l = Some o -> learningRate o = Some r ->
  costHistory m = [] ->
  train h m = Some (h', m') ->
  h' = <[l := mkOptions (Some (rate_of (costHistory m') r)) (iterations o)
                        (batchSize o) (decisionBoundary o)]> h.
Proof.
  intros El Ho Hr Hfresh E.
  assert (this_options h m = Some o) as Hto
    by (unfold this_options; by rewrite El).
  rewrite (train_after_epochs _ _ _ Hto) in E.
  by apply (after_epochs_rate _ _ _ _ _ _ _ _ _ El Ho Hr Hfresh E).
Qed.

(** X7. The plotting script reverses the cost history of the trained
    model: for a model that was fresh before [train], the reversed array
    is chronological, its entry at index [i] being the cost recorded at
    the end of pass [i]; and since the array is reversed in place, it is
    from then on the model's own cost history. *)
Theorem reversed_history_chronological h m o h' m' :
  this_options h m = Some o -> costHistory m = [] ->
  train h m = Some (h', m') ->
  let n := Z.to_nat (default 0 (iterations o)) in
  let bq := floor_div (nrows (features m)) (batchSize o) in
  length (reverse_costHistory m').2 = n /\
  costHistory (reverse_costHistory m').1 = (reverse_costHistory m').2 /\
  forall i, (i < n)%nat ->
    (reverse_costHistory m').2 !! i = epoch_cost bq h m i.
Proof.
  intros Ho Hfresh E n bq. rewrite (train_after_epochs _ _ _ Ho) in E.
  fold n bq in E. pose proof Ho as Ho'. unfold this_options in Ho'.
  destruct (options m) as [l|] eqn:El; simpl in Ho'; [|done].
  destruct (after_epochs_frame _ _ _ _ _ _ _ E El)
    as (_ & _ & cs & Hcs & Ecs).
  rewrite Hfresh, app_nil_r in Ecs.
  assert (length (costHistory m') = n) as Hlen by (by rewrite Ecs).
  unfold reverse_costHistory. simpl. rewrite length_reverse.
  split; [done|]. split; [done|]. intros i Hi.
  rewrite reverse_lookup by lia.
  destruct (after_epochs_costs _ _ _ _ _ _ _ E El (length (costHistory m') - S i)%nat)
    as [_ ->]; [lia|].
  f_equal. lia.
Qed.
End MoreLoops.

(** ** A batch size above the number of rows *)

Section NoBatches.
Context {F : Type} `{Scalar F}.
Implicit Types (h : heap F) (m : Model F) (o : Options F).




End NoBatches.

(** ** The accuracy that [test] returns *)

Section Accuracy.
Context {F : Type} `{Scalar F}.
Implicit Types (h : heap F) (m : Model F) (o : Options F).

Lemma predict_rows h m o (db : F) (mu v : vector F) (obs : matrix F) :
  this_options h m = Some o -> decisionBoundary o = Some db ->
  mean m = Some mu -> variance m = Some v -> ncols (weights m) = 1%nat ->
  predict h m obs =
  Some (m, map (fun r =>
                  [classify db (probability mu v (column 0 (weights m)) r)])
               obs).
Proof.
  intros Ho Hdb Hmu Hv Hw.
  unfold predict. rewrite (preprocessFeatures_stored _ _ _ _ Hmu Hv).
  rewrite Ho. simpl. rewrite Hdb. simpl. do 2 f_equal.
  rewrite (matMul_one_column _ _ Hw), standardized_rows.
  unfold mmap. rewrite !map_map. done.
Qed.
End Accuracy.

Section AccuracyReal.
#[local] Open Scope R_scope.

Lemma of_nat_INR (n : nat) : of_nat n = Real (INR n).
Proof.
  unfold of_nat. simpl. f_equal. rewrite INR_IZR_INZ.
  unfold Q2R. simpl. lra.
Qed.

Lemma binary_rows_predicted (db : xreal) (f : vector xreal -> xreal)
    (obs : matrix xreal) :
  Forall binary_row (map (fun r => [classify db (f r)]) obs).
Proof.
  apply Forall_map, Forall_true. intros r. simpl. unfold binary_row, classify.
  destruct (t_greater (f r) db); [by right|by left].
Qed.

Lemma msum_cons (r : vector xreal) (x : matrix xreal) :
  msum (r :: x) = t_add (vsum r) (msum x).
Proof. done. Qed.

Lemma mismatches_cons (r s : vector xreal) (p y : matrix xreal) :
  mismatches (r :: p) (s :: y) =
  ((if decide (r <> s) then 1 else 0) + mismatches p y)%nat.
Proof.
  unfold mismatches. simpl. rewrite filter_cons. simpl.
  repeat case_decide; done.
Qed.

(** The sum of the absolute differences counts the rows that differ. *)
Lemma absolute_differences_count (p y : matrix xreal) :
  Forall binary_row p -> Forall binary_row y ->
  msum (mmap t_abs (mzip t_sub p y)) = Real (INR (mismatches p y)).
Proof.
  intros Hp. revert y. induction Hp as [|r p Hr Hp IH]; intros y Hy.
  { simpl. unfold msum, mismatches. simpl. f_equal. unfold Q2R. simpl. lra. }
  destruct Hy as [|s y Hs Hy].
  { simpl. unfold msum, mismatches. simpl. f_equal. unfold Q2R. simpl. lra. }
  change (mmap t_abs (mzip t_sub (r :: p) (s :: y)))
    with (map t_abs (zip_with t_sub r s) :: mmap t_abs (mzip t_sub p y)).
  rewrite msum_cons, (IH _ Hy), mismatches_cons.
  assert (Q2R 0 <> Q2R 1) as Q01 by (unfold Q2R; simpl; lra).
  destruct Hr as [-> | ->], Hs as [-> | ->]; simpl;
    (destruct (decide _) as [Hd|Hd];
     [| try (exfalso; apply Hd; intros [=]; lra)];
     [try (exfalso; by apply Hd)|..]);
    f_equal; rewrite ?plus_INR; simpl; unfold Q2R; simpl;
    rewrite ?Rabs_R0, ?Rabs_R1;
    try (replace (0 * / 1 - 1 * / 1) with (- (1)) by lra;
         rewrite Rabs_Ropp, Rabs_R1);
    try (replace (1 * / 1 - 0 * / 1) with 1 by lra; rewrite Rabs_R1);
    try (replace (0 * / 1 - 0 * / 1) with 0 by lra; rewrite Rabs_R0);
    try (replace (1 * / 1 - 1 * / 1) with 0 by lra; rewrite Rabs_R0);
    lra.
Qed.

Lemma mismatches_le (p y : matrix xreal) :
  (mismatches p y <= length p)%nat.
Proof.
  unfold mismatches.
  etransitivity; [apply length_filter|]. rewrite length_zip. lia.
Qed.

(** X8. On a model with stored moments for [c] columns and a weight
    column of [c + 1] entries, [test] on test rows of [c] columns, with
    one 0/1 label row for each test row, leaves the model as it is and
    returns, in the real numbers, the share of the test rows whose predicted label is
    the given one: [(n - wrong) / n] for [n] rows of which [wrong] are
    predicted otherwise.  This accuracy lies between 0 and 1. *)
Theorem test_accuracy (h : heap xreal) (m : Model xreal) o (db : xreal)
    (mu v : vector xreal) (tx ty : matrix xreal) :
  this_options h m = Some o -> decisionBoundary o = Some db ->
  mean m = Some mu -> variance m = Some v -> length v = length mu ->
  length (weights m) = S (length mu) -> is_column (weights m) ->
  tx <> [] -> Forall (fun r => length r = length mu) tx ->
  length ty = length tx -> Forall binary_row ty ->
  exists predictions (accuracy : R),
    predict h m tx = Some (m, predictions) /\
    test h m tx ty = Some (m, Real accuracy) /\
    accuracy = (INR (length tx) - INR (mismatches predictions ty))
               / INR (length tx) /\
    0 <= accuracy <= 1.
Proof.
  intros Ho Hdb Hmu Hv _ Hwlen Hcol Hne _ _ Hy.
  assert (ncols (weights m) = 1%nat) as Hw.
  { destruct (weights m) as [|r w]; [done|]. by inversion Hcol. }
  pose proof (predict_rows h m o db mu v tx Ho Hdb Hmu Hv Hw) as Ep.
  set (predictions :=
         map (fun r =>
                [classify db (probability mu v (column 0 (weights m)) r)])
             tx) in *.
  assert (length predictions = length tx) as Hlen
    by (unfold predictions; by rewrite length_map).
  assert (INR (length tx) <> 0) as Hn.
  { apply not_0_INR. destruct tx; simpl; [done|lia]. }
  exists predictions, ((INR (length tx) - INR (mismatches predictions ty))
                       / INR (length tx)).
  split; [done|]. split; [|split; [done|]].
  - unfold test. rewrite Ep. cbn [mbind option_bind].
    rewrite absolute_differences_count;
      [|apply binary_rows_predicted|done].
    unfold nrows. rewrite Hlen, of_nat_INR. simpl.
    destruct (Req_dec_T (INR (length tx)) 0); [done|done].
  - pose proof (mismatches_le predictions ty) as Hle. rewrite Hlen in Hle.
    apply le_INR in Hle. pose proof (pos_INR (mismatches predictions ty)).
    assert (0 < INR (length tx)) by (pose proof (pos_INR (length tx)); lra).
    split.
    + apply Rmult_le_pos; [lra|]. left. by apply Rinv_0_lt_compat.
    + apply Rmult_le_reg_r with (INR (length tx)); [done|].
      unfold Rdiv. rewrite Rmult_assoc, Rinv_l by done. lra.
Qed.
End AccuracyReal.

Section TrainFrame.
Context {F : Type} `{Scalar F}.

(** X14. Whatever the model, a [train] call that returns has put one cost
    for each of the [iterations] passes in front of the cost history it
    found, which is kept as it was; the features, the labels, the stored
    moments and the reference to the options object are the same as
    before, and in the heap only the [learningRate] of that object may
    differ. *)
Theorem train_extends_history h m (l : loc) o h' m' :
  options m = Some l -> h !! l = Some o ->
  train h m = Some (h', m') ->
  same_data m m' /\ same_but_rate l h h' /\
  exists costs,
    length costs = Z.to_nat (default 0 (iterations o)) /\
    costHistory m' = costs ++ costHistory m.
Proof.
  intros Hl Ho Ht.
  assert (this_options h m = Some o) as Hto
    by (unfold this_options; by rewrite Hl).
  rewrite (train_after_epochs _ _ _ Hto) in Ht.
  by apply (after_epochs_frame _ _ _ _ _ _ _ Ht).
Qed.
End TrainFrame.

(** * Properties of the CSV loader *)

Section CsvLists.
Import Csv CsvSpec.

Lemma split_on_cons (sep : ascii) (s : string) :
  exists x xs, split_on sep s = x :: xs.
Proof.
  induction s as [|c t (x & xs & IH)]; simpl; [by eauto|].
  destruct (Ascii.eqb c sep); [by eauto|]. rewrite IH. eauto.
Qed.

Lemma split_on_snoc (sep : ascii) (s : string) :
  split_on sep (s +:+ String sep EmptyString)
  = split_on sep s ++ [EmptyString].
Proof.
  induction s as [|c t IH]; simpl.
  - by rewrite Ascii.eqb_refl.
  - destruct (Ascii.eqb c sep); [by rewrite IH|].
    rewrite IH. destruct (split_on_cons sep t) as (x & xs & ->). done.
Qed.

Lemma dropRightWhile_snoc {A} (p : A -> bool) (l : list A) (y : A) :
  p y = true -> dropRightWhile p (l ++ [y]) = dropRightWhile p l.
Proof.
  intros Hy. induction l as [|x l IH]; simpl; [by rewrite Hy|].
  by rewrite IH.
Qed.

Lemma rows_of_content_newline (content : string) :
  rows_of_content (content +:+ String "010"%char EmptyString)
  = rows_of_content content.
Proof.
  unfold rows_of_content. rewrite split_on_snoc, map_app. simpl.
  by rewrite dropRightWhile_snoc.
Qed.

Lemma keep_at_ext {A} (k1 k2 : nat -> bool) (l : list A) :
  (forall p, k1 p = k2 p) -> keep_at k1 l = keep_at k2 l.
Proof.
  revert k1 k2. induction l as [|x l IH]; intros k1 k2 Hk; simpl; [done|].
  rewrite (IH (fun p => k1 (S p)) (fun p => k2 (S p))) by (intros; apply Hk).
  by rewrite Hk.
Qed.

Lemma keep_at_all {A} (l : list A) : keep_at (fun _ => true) l = l.
Proof. induction l as [|x l IH]; simpl; [done|]. by rewrite IH. Qed.

(** Removing one position first is keeping one position less. *)
Lemma keep_at_delete {A} (keep : nat -> bool) (n : nat) (l : list A) :
  keep_at keep (delete n l) =
  keep_at (fun p => if (p <? n)%nat then keep p
                    else if (p =? n)%nat then false else keep (p - 1)%nat) l.
Proof.
  revert keep n. induction l as [|x l IH]; intros keep n; [done|].
  destruct n as [|n]; simpl.
  - apply keep_at_ext. intros p. by rewrite Nat.sub_0_r.
  - rewrite IH. destruct (keep 0%nat); [f_equal|];
      apply keep_at_ext; intros p;
      change (S p <? S n)%nat with (p <? n)%nat;
      change (S p =? S n)%nat with (p =? n)%nat;
      destruct (p <? n)%nat eqn:E1; try done;
      destruct (p =? n)%nat eqn:E2; try done;
      apply Nat.ltb_ge in E1; apply Nat.eqb_neq in E2;
      f_equal; lia.
Qed.

Lemma basePullAt_keep_at {A} (descending : list Z) (previous : option Z)
    (array : list A) :
  StronglySorted (flip Z.le) descending ->
  (forall q, previous = Some q -> Forall (fun i => i <= q) descending) ->
  basePullAt previous descending array =
  keep_at (fun p => bool_decide (Z.of_nat p ∉ descending
                                 \/ previous = Some (Z.of_nat p))) array.
Proof.
  intros Hs. revert previous array.
  induction Hs as [|i rest Hs IH Hle]; intros previous array Hprev.
  { transitivity (keep_at (fun _ => true) array);
      [by rewrite keep_at_all|].
    apply keep_at_ext. intros p. symmetry. apply bool_decide_eq_true_2.
    left. apply not_elem_of_nil. }
  simpl. destruct (decide (previous = Some i)) as [->|Hne].
  - rewrite IH.
    + apply keep_at_ext. intros p. apply bool_decide_ext.
      rewrite not_elem_of_cons. split.
      * intros [?|?]; [|by right].
        destruct (decide (Z.of_nat p = i)) as [<-|?]; [by right|by left].
      * intros [[? ?]|?]; [by left|by right].
    + intros q [= <-]. specialize (Hprev i eq_refl). by inversion Hprev.
  - assert (forall p : nat, previous = Some (Z.of_nat p) ->
              Z.of_nat p ∉ i :: rest) as Hq.
    { intros p E. specialize (Hprev _ E). inversion Hprev as [|? ? Hi Hrest].
      subst. rewrite not_elem_of_cons. split; [congruence|].
      intros Hin. rewrite Forall_forall in Hle.
      specialize (Hle _ Hin). unfold flip in Hle.
      assert (i <> Z.of_nat p) by congruence. lia. }
    rewrite IH by (intros q [= <-]; exact Hle).
    destruct (0 <=? i) eqn:Ei.
    + apply Z.leb_le in Ei. rewrite keep_at_delete.
      apply keep_at_ext. intros p.
      rewrite Forall_forall in Hle. unfold flip in Hle.
      destruct (p <? Z.to_nat i)%nat eqn:E1;
        [|destruct (p =? Z.to_nat i)%nat eqn:E2].
      * apply Nat.ltb_lt in E1. apply bool_decide_ext.
        rewrite not_elem_of_cons. split.
        -- intros [?|[= ?]]; [|lia]. left. split; [lia|done].
        -- intros [[? ?]|E]; [by left|]. apply Hq in E.
           rewrite not_elem_of_cons in E. left. tauto.
      * apply Nat.eqb_eq in E2. symmetry. apply bool_decide_eq_false_2.
        intros [Hn|E].
        -- apply Hn. rewrite elem_of_cons. left. lia.
        -- apply Hq in E. apply E. rewrite elem_of_cons. left. lia.
      * apply Nat.ltb_ge in E1. apply Nat.eqb_neq in E2.
        transitivity true; [|symmetry]; apply bool_decide_eq_true_2.
        -- destruct (decide (Z.of_nat (p - 1) = i)) as [E|E];
             [right; by rewrite E|].
           left. intros Hin. specialize (Hle _ Hin). lia.
        -- left. rewrite not_elem_of_cons. split; [lia|].
           intros Hin. specialize (Hle _ Hin). lia.
    + apply Z.leb_gt in Ei. apply keep_at_ext. intros p.
      apply bool_decide_ext. rewrite not_elem_of_cons. split.
      * intros [?|[= ?]]; [|lia]. left. split; [lia|done].
      * intros [[? ?]|E]; [by left|]. apply Hq in E.
        rewrite not_elem_of_cons in E. left. tauto.
Qed.

Lemma pullAt_keep_at {N} (row : list (cell N)) (indexes : list Z) :
  pullAt row indexes =
  (map (at_index row) indexes, keep_at (unlisted indexes) row).
Proof.
  unfold pullAt. f_equal. rewrite basePullAt_keep_at.
  - apply keep_at_ext. intros p. unfold unlisted. apply bool_decide_ext.
    rewrite elem_of_reverse, merge_sort_Permutation. split; [|by left].
    by intros [?|?].
  - apply Sorted_StronglySorted; [apply _|].
    apply Sorted_reverse, Sorted_merge_sort. apply _.
  - done.
Qed.
End CsvLists.

Section CsvColumns.
Import Csv CsvSpec.
Context {N : Type}.
Implicit Types (headers row : list (cell N)) (column : string).

Lemma indexOf_bound headers column : -1 <= indexOf headers column.
Proof.
  induction headers as [|x t IH]; simpl; [lia|].
  destruct (match x with CStr s => String.eqb s column | _ => false end);
    [lia|].
  destruct (indexOf t column <? 0) eqn:E; [lia|]. apply Z.ltb_ge in E. lia.
Qed.

Lemma indexOf_lookup headers column :
  0 <= indexOf headers column ->
  headers !! Z.to_nat (indexOf headers column) = Some (CStr column).
Proof.
  induction headers as [|x t IH]; simpl; [lia|].
  destruct x as [s| |]; simpl.
  - destruct (String.eqb s column) eqn:Es.
    + apply String.eqb_eq in Es as ->. done.
    + destruct (indexOf t column <? 0) eqn:E; [lia|]. apply Z.ltb_ge in E.
      intros _. rewrite Z2Nat.inj_add, Nat.add_1_r by lia. simpl. by apply IH.
  - destruct (indexOf t column <? 0) eqn:E; [lia|]. apply Z.ltb_ge in E.
    intros _. rewrite Z2Nat.inj_add, Nat.add_1_r by lia. simpl. by apply IH.
  - destruct (indexOf t column <? 0) eqn:E; [lia|]. apply Z.ltb_ge in E.
    intros _. rewrite Z2Nat.inj_add, Nat.add_1_r by lia. simpl. by apply IH.
Qed.

Lemma indexOf_absent headers column :
  CStr column ∉ headers -> indexOf headers column = -1.
Proof.
  induction headers as [|x t IH]; simpl; [done|].
  rewrite not_elem_of_cons. intros [Hx Ht]. rewrite (IH Ht). simpl.
  destruct x as [s| |]; try done.
  destruct (String.eqb s column) eqn:Es; [|done].
  apply String.eqb_eq in Es. congruence.
Qed.

Lemma at_index_cons (x : cell N) row (j : Z) :
  0 <= j -> at_index (x :: row) (j + 1) = at_index row j.
Proof.
  intros Hj. unfold at_index.
  assert ((j + 1 <? 0) = false) as -> by (apply Z.ltb_ge; lia).
  assert ((j <? 0) = false) as -> by (apply Z.ltb_ge; lia).
  by rewrite Z2Nat.inj_add, Nat.add_1_r by lia.
Qed.

Lemma at_index_nil (j : Z) : at_index ([] : list (cell N)) j = CUndefined.
Proof. unfold at_index. by destruct (j <? 0). Qed.

(** A column that stays when positions are removed from the header row
    and from a row alike is found again, with the same cell. *)
Lemma indexOf_keep_at headers row (keep : nat -> bool) column :
  0 <= indexOf headers column ->
  keep (Z.to_nat (indexOf headers column)) = true ->
  0 <= indexOf (keep_at keep headers) column /\
  at_index (keep_at keep row) (indexOf (keep_at keep headers) column)
  = at_index row (indexOf headers column).
Proof.
  revert row keep. induction headers as [|x t IH]; intros row keep; simpl;
    [lia|].
  destruct (match x with CStr s => String.eqb s column | _ => false end)
    eqn:Ex.
  - intros _ Hk. change (Z.to_nat 0) with 0%nat in Hk. rewrite Hk. simpl.
    rewrite Ex.
    split; [lia|]. destruct row as [|y rt]; simpl; [done|]. by rewrite Hk.
  - destruct (indexOf t column <? 0) eqn:E; [lia|]. apply Z.ltb_ge in E.
    intros _ Hk. rewrite Z2Nat.inj_add, Nat.add_1_r in Hk by lia.
    destruct (IH (tail row) (fun p => keep (S p)) E Hk) as [Hpos Hat].
    assert (at_index row (indexOf t column + 1)
            = at_index (tail row) (indexOf t column)) as ->.
    { destruct row as [|y rt]; simpl; [by rewrite !at_index_nil|].
      by apply at_index_cons. }
    rewrite <- Hat. destruct (keep 0%nat) eqn:Ek; simpl.
    + rewrite Ex.
      assert ((indexOf (keep_at (fun p => keep (S p)) t) column <? 0) = false)
        as -> by (apply Z.ltb_ge; lia).
      split; [lia|]. destruct row as [|y rt]; simpl;
        [by rewrite !at_index_nil|].
      rewrite Ek. by apply at_index_cons.
    + split; [done|]. destruct row as [|y rt]; simpl; [done|]. by rewrite Ek.
Qed.

(** A column all of whose cells in the header row are removed is found no
    more. *)
Lemma indexOf_removed headers (keep : nat -> bool) column :
  (forall p, headers !! p = Some (CStr column) -> keep p = false) ->
  indexOf (keep_at keep headers) column = -1.
Proof.
  revert keep. induction headers as [|x t IH]; intros keep Hk; simpl; [done|].
  assert (indexOf (keep_at (fun p => keep (S p)) t) column = -1) as Ht.
  { apply IH. intros p Hp. by apply (Hk (S p)). }
  destruct (keep 0%nat) eqn:Ek; [|done]. simpl. rewrite Ht. simpl.
  destruct x as [s| |]; try done.
  destruct (String.eqb s column) eqn:Es; [|done].
  apply String.eqb_eq in Es as ->. by rewrite (Hk 0%nat) in Ek.
Qed.

Lemma extractColumns_cons headers (rows : list (list (cell N)))
    (columnNames : list string) :
  extractColumns (headers :: rows) columnNames =
  Some (map (fun row => map (column_cell headers row) columnNames)
            (headers :: rows),
        map (keep_at (unlisted (map (indexOf headers) columnNames)))
            (headers :: rows)).
Proof.
  unfold extractColumns. cbn [head mbind option_bind].
  rewrite !map_map. f_equal. f_equal.
  - apply map_ext. intros row. rewrite pullAt_keep_at. simpl.
    by rewrite map_map.
  - apply map_ext. intros row. by rewrite pullAt_keep_at.
Qed.

(** The cell that the second extraction reads for a column: the cell of
    the table as it was before the first extraction, unless the column was
    pulled out by the first. *)
Lemma column_cell_after_pull headers row (pulled : list string) column :
  column ∉ pulled ->
  column_cell (keep_at (unlisted (map (indexOf headers) pulled)) headers)
              (keep_at (unlisted (map (indexOf headers) pulled)) row) column
  = column_cell headers row column.
Proof.
  intros Hc. unfold column_cell.
  pose proof (indexOf_bound headers column) as Hb.
  destruct (decide (indexOf headers column = -1)) as [E|E].
  - rewrite E, indexOf_removed; [done|].
    intros p Hp. exfalso.
    assert (CStr column ∈ headers) as Hin by (by eapply list_elem_of_lookup_2).
    revert E. clear -Hin. induction headers as [|x t IH]; [by inversion Hin|].
    simpl. apply elem_of_cons in Hin as [<-|Hin].
    + simpl. by rewrite String.eqb_refl.
    + destruct (match x with CStr s => String.eqb s column | _ => false end);
        [done|].
      destruct (indexOf t column <? 0) eqn:E; [|lia].
      apply Z.ltb_lt in E. pose proof (indexOf_bound t column).
      intros _. apply IH; [done|lia].
  - apply indexOf_keep_at; [lia|].
    unfold unlisted. apply bool_decide_eq_true_2.
    rewrite Z2Nat.id by lia. intros Hin.
    apply list_elem_of_fmap in Hin as (c & Ec & Hcin).
    assert (0 <= indexOf headers c) as Hc0 by lia.
    pose proof (indexOf_lookup headers c Hc0) as L1.
    pose proof (indexOf_lookup headers column ltac:(lia)) as L2.
    rewrite <- Ec in L1. rewrite L2 in L1. congruence.
Qed.
End CsvColumns.

Section CsvLoader.
Import Csv CsvSpec.
Context {N : Type}.
Variable parseFloat : string -> N.
Variable isNaN : N -> bool.
Variable shuffleSeed : forall A : Type, list A -> list A.

#[local] Abbreviation load := (loadCSV parseFloat isNaN shuffleSeed).
#[local] Abbreviation table o content :=
  (convert_rows parseFloat isNaN (default (fun _ => None) (converters o))
     (rows_of_content content)).

Lemma slice_map {A B} (f : A -> B) (l : list A) (start : Z) (stop : option Z) :
  slice (map f l) start stop = map f (slice l start stop).
Proof. unfold slice. by rewrite length_map, skipn_map, firstn_map. Qed.

Lemma relative_index_le (len : nat) (k : Z) : (relative_index len k <= len)%nat.
Proof. unfold relative_index. destruct (Z.ltb_spec k 0); lia. Qed.

Lemma slice_partition {A} (l : list A) (k : Z) :
  slice l 0 (Some k) ++ slice l k None = l /\
  length (slice l 0 (Some k)) = relative_index (length l) k.
Proof.
  pose proof (relative_index_le (length l) k) as Hle.
  unfold slice. change (relative_index (length l) 0) with 0%nat.
  rewrite Nat.sub_0_r, drop_0.
  rewrite (take_ge (drop _ l)) by (rewrite length_drop; lia).
  rewrite take_drop. split; [done|]. rewrite length_take. lia.
Qed.

(** What the loader returns, for a file with a header row: the columns
    as the two extractions find them, then the shuffle and the split. *)
Lemma loadCSV_table (content : string) (o : Options)
    (headers : list (cell N)) (rows : list (list (cell N))) :
  table o content = headers :: rows ->
  (default false (shuffle o) = true -> positional shuffleSeed) ->
  let lcols := default [] (labelColumns o) in
  let dcols := default [] (dataColumns o) in
  let pulled := unlisted (map (indexOf headers) lcols) in
  let fx := fun row =>
    map (column_cell (keep_at pulled headers) (keep_at pulled row)) dcols in
  let fy := fun row => map (column_cell headers row) lcols in
  let all := if default false (shuffle o) then shuffleSeed _ rows else rows in
  exists r train test,
    load content o = Some r /\
    test ++ train = all /\
    features r = map fx train /\ labels r = map fy train /\
    match default SplitFalse (splitTest o) with
    | SplitFalse | SplitSize 0 =>
        test = [] /\ testFeatures r = None /\ testLabels r = None
    | SplitTrue =>
        length test = (length all / 2)%nat /\
        testFeatures r = Some (map fx test) /\
        testLabels r = Some (map fy test)
    | SplitSize k =>
        length test = relative_index (length all) k /\
        testFeatures r = Some (map fx test) /\
        testLabels r = Some (map fy test)
    end.
Proof.
  intros Ht Hshuffle lcols dcols pulled fx fy all.
  assert (exists data0 labels0,
            data0 = map fx all /\ labels0 = map fy all /\
            load content o =
            match default SplitFalse (splitTest o) with
            | SplitFalse | SplitSize 0 =>
                Some (mkLoaded data0 labels0 None None)
            | SplitTrue =>
                let trainSize := Z.of_nat (length data0) / 2 in
                Some (mkLoaded (slice data0 trainSize None)
                        (slice labels0 trainSize None)
                        (Some (slice data0 0 (Some trainSize)))
                        (Some (slice labels0 0 (Some trainSize))))
            | SplitSize trainSize =>
                Some (mkLoaded (slice data0 trainSize None)
                        (slice labels0 trainSize None)
                        (Some (slice data0 0 (Some trainSize)))
                        (Some (slice labels0 0 (Some trainSize))))
            end) as (data0 & labels0 & Ed & El & Eload).
  { eexists _, _. split; [reflexivity|]. split; [reflexivity|].
    unfold loadCSV. rewrite Ht. rewrite extractColumns_cons.
    cbn [mbind option_bind map]. rewrite extractColumns_cons.
    cbn [mbind option_bind map tail]. rewrite !map_map.
    fold lcols dcols pulled. unfold all.
    destruct (default false (shuffle o)) eqn:Es.
    - specialize (Hshuffle eq_refl).
      rewrite <- !(Hshuffle _ _ _ rows). done.
    - done. }
  rewrite Eload. subst data0 labels0.
  destruct (default SplitFalse (splitTest o)) as [| |k].
  - eexists _, all, []. repeat split; done.
  - cbv zeta. rewrite !slice_map, length_map.
    destruct (slice_partition all (Z.of_nat (length all) / 2)) as [Hp Hl].
    eexists _, _, _. split; [reflexivity|]. split; [exact Hp|].
    cbn [features labels testFeatures testLabels]. repeat split; try done.
    rewrite Hl. unfold relative_index.
    destruct (Z.ltb_spec (Z.of_nat (length all) / 2) 0) as [Hneg|_].
    { pose proof (Z.div_pos (Z.of_nat (length all)) 2). lia. }
    rewrite Z2Nat.inj_div, Nat2Z.id by lia.
    change (Z.to_nat 2) with 2%nat.
    pose proof (Nat.Div0.div_le_upper_bound (length all) 2 (length all)).
    lia.
  - destruct (decide (k = 0)) as [->|Hk].
    + eexists _, all, []. repeat split; done.
    + rewrite !slice_map.
      destruct (slice_partition all k) as [Hp Hl].
      assert (exists r, match k with
                | 0 => Some (mkLoaded (map fx all) (map fy all) None None)
                | _ => Some (mkLoaded (map fx (slice all k None))
                         (map fy (slice all k None))
                         (Some (map fx (slice all 0 (Some k))))
                         (Some (map fy (slice all 0 (Some k)))))
                end = Some r /\
                features r = map fx (slice all k None) /\
                labels r = map fy (slice all k None) /\
                testFeatures r = Some (map fx (slice all 0 (Some k))) /\
                testLabels r = Some (map fy (slice all 0 (Some k))))
        as (r & -> & Hf & Hlb & Htf & Htl).
      { destruct k; [done|..]; eexists; repeat split; done. }
      exists r, (slice all k None), (slice all 0 (Some k)).
      split; [done|]. split; [done|]. split; [done|]. split; [done|].
      destruct k; done.
Qed.
End CsvLoader.

Section CsvTheorems.
Import Csv CsvSpec.
Context {N : Type}.
Variable parseFloat : string -> N.
Variable isNaN : N -> bool.
Variable shuffleSeed : forall A : Type, list A -> list A.

#[local] Abbreviation load := (loadCSV parseFloat isNaN shuffleSeed).
#[local] Abbreviation table o content :=
  (convert_rows parseFloat isNaN (default (fun _ => None) (converters o))
     (rows_of_content content)).

Lemma indexOf_present (headers : list (cell N)) column :
  CStr column ∈ headers -> 0 <= indexOf headers column.
Proof.
  induction headers as [|x t IH]; [by inversion 1|].
  rewrite elem_of_cons. intros Hin. simpl.
  destruct x as [s| |]; simpl.
  - destruct (String.eqb s column) eqn:Es; [lia|].
    destruct Hin as [Hx|Ht].
    { injection Hx as ->. by rewrite String.eqb_refl in Es. }
    specialize (IH Ht).
    destruct (Z.ltb_spec (indexOf t column) 0); lia.
  - destruct Hin as [Hx|Ht]; [done|]. specialize (IH Ht).
    destruct (Z.ltb_spec (indexOf t column) 0); lia.
  - destruct Hin as [Hx|Ht]; [done|]. specialize (IH Ht).
    destruct (Z.ltb_spec (indexOf t column) 0); lia.
Qed.

(** X9. [extractColumns] on a table with a header row: every row, the
    header row included, gives its cells in the named columns, in the
    order of the names, [undefined] for a name that is no column; and
    the table is left without the positions of those columns, in every
    row alike, whatever the order and the repetitions of the names.  On
    a table without any row the call throws, unless no column is named. *)
Theorem extractColumns_table (headers : list (cell N))
    (rows : list (list (cell N))) (columnNames : list string) :
  extractColumns (headers :: rows) columnNames =
    Some (map (fun row => map (column_cell headers row) columnNames)
              (headers :: rows),
          map (keep_at (unlisted (map (indexOf headers) columnNames)))
              (headers :: rows)) /\
  extractColumns ([] : list (list (cell N))) columnNames =
    match columnNames with [] => Some ([], []) | _ :: _ => None end.
Proof.
  split; [apply extractColumns_cons|].
  unfold extractColumns. cbn [head]. by destruct columnNames.
Qed.

(** X10. The loader on a file with a header row, the data columns
    being none of the label columns: the rows of the file (shuffled, if
    asked for, by a shuffle that only rearranges positions) are cut in a
    test part and a training part; the features and the labels of each
    part come from the same rows, in the same order, each entry being
    the cell of the row in the named column.  Without a split the test
    part is empty and not returned; with one it comes first and has the
    asked size, or half the rows. *)
Theorem loadCSV_rows (content : string) (o : Options)
    (headers : list (cell N)) (rows : list (list (cell N))) :
  table o content = headers :: rows ->
  (forall d, d ∈ default [] (dataColumns o) ->
             d ∉ default [] (labelColumns o)) ->
  (default false (shuffle o) = true -> positional shuffleSeed) ->
  let fx := fun row =>
    map (column_cell headers row) (default [] (dataColumns o)) in
  let fy := fun row =>
    map (column_cell headers row) (default [] (labelColumns o)) in
  let all := if default false (shuffle o) then shuffleSeed _ rows else rows in
  exists r train test,
    load content o = Some r /\
    test ++ train = all /\
    features r = map fx train /\ labels r = map fy train /\
    match default SplitFalse (splitTest o) with
    | SplitFalse | SplitSize 0 =>
        test = [] /\ testFeatures r = None /\ testLabels r = None
    | SplitTrue =>
        length test = (length all / 2)%nat /\
        testFeatures r = Some (map fx test) /\
        testLabels r = Some (map fy test)
    | SplitSize k =>
        length test = relative_index (length all) k /\
        testFeatures r = Some (map fx test) /\
        testLabels r = Some (map fy test)
    end.
Proof.
  intros Ht Hdisjoint Hshuffle fx fy all.
  destruct (loadCSV_table parseFloat isNaN shuffleSeed content o headers rows
              Ht Hshuffle) as (r & train & test & Hr & Hp & Hf & Hl & Hs).
  assert (forall l : list (list (cell N)),
    map (fun row =>
      map (column_cell
             (keep_at (unlisted (map (indexOf headers)
                                   (default [] (labelColumns o)))) headers)
             (keep_at (unlisted (map (indexOf headers)
                                   (default [] (labelColumns o)))) row))
          (default [] (dataColumns o))) l = map fx l) as Hfx.
  { intros l. apply map_ext. intros row. apply map_ext_in. intros d Hd.
    apply column_cell_after_pull, Hdisjoint. by apply list_elem_of_In. }
  exists r, train, test. rewrite Hfx in Hf.
  split; [done|]. split; [done|]. split; [done|]. split; [done|].
  destruct (default SplitFalse (splitTest o)) as [| |k]; [done|..].
  - by rewrite Hfx in Hs.
  - destruct k; [done|..]; by rewrite Hfx in Hs.
Qed.

(** X11. A data column that the header row does not have, or that is
    one of the label columns too (the header row naming no column
    twice), is [undefined] in every row of the features and of the test
    features: the labels are cut out of the table before the features
    are read. *)
Theorem loadCSV_undefined_column (content : string) (o : Options)
    (headers : list (cell N)) (rows : list (list (cell N)))
    (j : nat) (d : string) :
  table o content = headers :: rows ->
  (default false (shuffle o) = true -> positional shuffleSeed) ->
  default [] (dataColumns o) !! j = Some d ->
  CStr d ∉ headers \/ (d ∈ default [] (labelColumns o) /\ NoDup headers) ->
  exists r,
    load content o = Some r /\
    Forall (fun row => row !! j = Some CUndefined)
           (features r ++ default [] (testFeatures r)).
Proof.
  intros Ht Hshuffle Hj Hd.
  destruct (loadCSV_table parseFloat isNaN shuffleSeed content o headers rows
              Ht Hshuffle) as (r & train & test & Hr & Hp & Hf & Hl & Hs).
  set (pulled := unlisted (map (indexOf headers)
                             (default [] (labelColumns o)))) in *.
  set (fx := fun row : list (cell N) =>
         map (column_cell (keep_at pulled headers) (keep_at pulled row))
             (default [] (dataColumns o))) in *.
  assert (indexOf (keep_at pulled headers) d = -1) as Hgone.
  { apply indexOf_removed. intros p Hp'.
    assert (CStr d ∈ headers) as Hin by (by eapply list_elem_of_lookup_2).
    destruct Hd as [Hd|[Hd Hnodup]]; [done|].
    pose proof (indexOf_present _ _ Hin) as Hpos.
    pose proof (indexOf_lookup _ _ Hpos) as Hlook.
    pose proof (NoDup_lookup _ _ _ _ Hnodup Hp' Hlook) as ->.
    apply bool_decide_eq_false_2. intros Hno. apply Hno.
    rewrite Z2Nat.id by done.
    change (indexOf headers d ∈ indexOf headers <$> default [] (labelColumns o)).
    by apply list_elem_of_fmap_2. }
  assert (forall l, Forall (fun row => row !! j = Some CUndefined) (map fx l))
    as Hall.
  { intros l. apply Forall_forall. intros row Hrow.
    apply list_elem_of_In, in_map_iff in Hrow as (row0 & <- & _).
    unfold fx. change (map ?f ?l) with (f <$> l).
    rewrite list_lookup_fmap, Hj. simpl. f_equal.
    unfold column_cell. by rewrite Hgone. }
  exists r. split; [done|]. apply Forall_app. split.
  - rewrite Hf. apply Hall.
  - destruct (default SplitFalse (splitTest o)) as [| |k].
    + destruct Hs as (_ & -> & _). constructor.
    + destruct Hs as (_ & -> & _). apply Hall.
    + destruct k; [destruct Hs as (_ & -> & _); constructor|..];
        destruct Hs as (_ & -> & _); apply Hall.
Qed.

(** X12. Line breaks at the end of the file, however many, change
    nothing: the blank lines at the end are dropped before anything is
    read. *)
Theorem loadCSV_trailing_newline (content : string) (o : Options) (k : nat) :
  load (Nat.iter k (fun s => s +:+ String "010"%char EmptyString) content) o
  = load content o.
Proof.
  induction k as [|k IH]; [done|].
  rewrite <- IH. cbn [Nat.iter nat_rect]. unfold loadCSV.
  by rewrite rows_of_content_newline.
Qed.

(** X13. A file without a header row (empty, or of line breaks only)
    makes the loader throw as soon as a column is asked for. *)
Theorem loadCSV_no_header (content : string) (o : Options) :
  rows_of_content content = [] ->
  default [] (labelColumns o) <> [] \/ default [] (dataColumns o) <> [] ->
  load content o = None.
Proof.
  intros Hrows Hcols. unfold loadCSV. rewrite Hrows.
  cbn [convert_rows]. unfold extractColumns. cbn [head].
  destruct (default [] (labelColumns o)) as [|l ls]; [|done].
  destruct (default [] (dataColumns o)) as [|c cs]; [|done].
  by destruct Hcols.
Qed.
End CsvTheorems.

(** ** The further properties on examples *)

Section MoreInstances.
Import XReal.

Lemma preprocessFeatures_bias_column_witness :
  length (preprocessFeatures Run.m2 Run.x).2 = length Run.x /\
  Forall (fun r => head r = Some (lit 1%Q) /\ length r = 2%nat)
         (preprocessFeatures Run.m2 Run.x).2.
Proof.
  apply (preprocessFeatures_bias_column Run.m2 Run.x 1).
  - by repeat constructor.
  - intros mu v [= <-] [= <-]. done.
Defined.

Lemma weights_shape_invariant_witness :
  length (weights Run.m2) = 2%nat /\ is_column (weights Run.m2).
Proof.
  apply (weights_shape_invariant Run.h0 Run.x Run.y (Some 0%nat) 1
           (Run.h2, Run.m2)).
  - done.
  - by repeat constructor.
  - by repeat constructor.
  - eapply session_train; [|apply constructed_train_run].
    rewrite <- surjective_pairing. apply session_start.
Defined.

Lemma train_twice_continues_witness :
  train Run.h2 Run.m2 = after_epochs 4 (Fin 1) Run.h0 Run.m0.
Proof.
  exact (train_twice_continues Run.h0 Run.m0 Run.caller_options Run.h2 Run.m2
           eq_refl train_run).
Defined.

Lemma train_batchSize_zero_witness :
  train Sample.h_zero Run.m0 = None.
Proof.
  apply (train_batchSize_zero Sample.h_zero Run.m0 Sample.zero_batch_options);
    done.
Defined.


Lemma train_learning_rate_witness :
  Run.h2 =
  <[0%nat := mkOptions (Some (rate_of [Real Run.cost2; Real Run.cost1]
                                      (lit 1%Q)))
                       (Some 2%Z) (Some 2%Z) (Some (lit 0.5%Q))]> Run.h0.
Proof.
  exact (train_learning_rate Run.h0 Run.m0 0%nat Run.caller_options (lit 1%Q)
           Run.h2 Run.m2 eq_refl eq_refl eq_refl eq_refl train_run).
Defined.

Lemma reversed_history_chronological_witness :
  length (reverse_costHistory Run.m2).2 = 2%nat /\
  costHistory (reverse_costHistory Run.m2).1 = (reverse_costHistory Run.m2).2 /\
  (reverse_costHistory Run.m2).2 !! 0%nat = epoch_cost (Fin 1) Run.h0 Run.m0 0 /\
  (reverse_costHistory Run.m2).2 !! 1%nat = epoch_cost (Fin 1) Run.h0 Run.m0 1.
Proof.
  pose proof (reversed_history_chronological Run.h0 Run.m0 Run.caller_options
                Run.h2 Run.m2 eq_refl eq_refl train_run) as (Hn & Hc & Hi).
  split; [exact Hn|]. split; [exact Hc|].
  split; [apply (Hi 0%nat)|apply (Hi 1%nat)]; simpl; lia.
Defined.

Lemma test_accuracy_witness :
  exists predictions (accuracy : R),
    predict Run.h0 Run.m2 Run.x = Some (Run.m2, predictions) /\
    test Run.h0 Run.m2 Run.x Run.y = Some (Run.m2, Real accuracy) /\
    accuracy = ((INR (length Run.x) - INR (mismatches predictions Run.y))
                / INR (length Run.x))%R /\
    (0 <= accuracy <= 1)%R.
Proof.
  apply (test_accuracy Run.h0 Run.m2 Run.caller_options (lit 0.5%Q)
           [Real 0] [Real 1]); try done.
  - repeat constructor.
  - repeat constructor.
  - constructor; [by left|]. constructor; [by right|]. constructor.
Defined.
End MoreInstances.

Section CsvInstances.
Import Csv CsvSpec.

Lemma reversal_positional : positional Sample.shuffle.
Proof.
  intros A B f l. unfold Sample.shuffle. symmetry. apply (fmap_reverse f l).
Qed.

Lemma sample_columns_apart (d : string) :
  d ∈ ["horsepower"; "weight"] -> d ∉ ["passedemissions"].
Proof.
  intros Hd Hl. apply list_elem_of_singleton in Hl as ->.
  repeat (apply elem_of_cons in Hd as [Hd|Hd]; [done|]). by inversion Hd.
Qed.

Lemma loadCSV_rows_witness :
  exists r train test,
    loadCSV Sample.parseFloat Sample.isNaN Sample.shuffle
            Sample.content Sample.options = Some r /\
    test ++ train = reverse Sample.rows /\
    features r =
      map (fun row => map (column_cell Sample.headers row)
                          ["horsepower"; "weight"]) train /\
    labels r =
      map (fun row => map (column_cell Sample.headers row)
                          ["passedemissions"]) train /\
    length test = 1%nat /\
    testFeatures r =
      Some (map (fun row => map (column_cell Sample.headers row)
                                ["horsepower"; "weight"]) test) /\
    testLabels r =
      Some (map (fun row => map (column_cell Sample.headers row)
                                ["passedemissions"]) test).
Proof.
  exact (loadCSV_rows Sample.parseFloat Sample.isNaN Sample.shuffle
           Sample.content Sample.options Sample.headers Sample.rows
           eq_refl sample_columns_apart (fun _ => reversal_positional)).
Defined.

Lemma loadCSV_undefined_column_witness :
  exists r,
    loadCSV Sample.parseFloat Sample.isNaN Sample.shuffle
            Sample.content Sample.options_absent = Some r /\
    Forall (fun row => row !! 1%nat = Some CUndefined)
           (features r ++ default [] (testFeatures r)).
Proof.
  apply (loadCSV_undefined_column Sample.parseFloat Sample.isNaN
           Sample.shuffle Sample.content Sample.options_absent
           Sample.headers Sample.rows 1 "cylinders").
  - reflexivity.
  - intros _. apply reversal_positional.
  - reflexivity.
  - left. intros Hin.
    repeat (apply elem_of_cons in Hin as [Hin|Hin]; [done|]). by inversion Hin.
Defined.

Lemma loadCSV_no_header_witness :
  loadCSV Sample.parseFloat Sample.isNaN Sample.shuffle
          (Sample.line_break +:+ Sample.line_break) Sample.options = None.
Proof.
  apply loadCSV_no_header; [reflexivity|]. left. done.
Defined.
End CsvInstances.

Section FrameInstance.
Import XReal.

Lemma train_extends_history_witness :
  same_data Run.m0 Run.m2 /\ same_but_rate 0%nat Run.h0 Run.h2 /\
  exists costs,
    length costs = 2%nat /\ costHistory Run.m2 = costs ++ costHistory Run.m0.
Proof.
  exact (train_extends_history Run.h0 Run.m0 0%nat Run.caller_options
           Run.h2 Run.m2 eq_refl eq_refl train_run).
Defined.
End FrameInstance.

(** ** The gradient step, entry by entry *)

Section Gradient.
Context {F : Type} `{Scalar F}.
Implicit Types (h : heap F) (m : Model F) (o : Options F).

Lemma nth_tabulate {A} (f : nat -> A) (n j : nat) (dflt : A) :
  (j < n)%nat -> nth j (map f (seq 0 n)) dflt = f j.
Proof.
  intros Hj. rewrite (nth_indep _ dflt (f 0%nat))
    by (by rewrite length_map, length_seq).
  by rewrite map_nth, seq_nth.
Qed.

Lemma list_tabulate {A} (l : list A) (dflt : A) :
  l = map (fun i => nth i l dflt) (seq 0 (length l)).
Proof.
  apply (nth_ext _ _ dflt dflt).
  - by rewrite length_map, length_seq.
  - intros n Hn. by rewrite nth_tabulate.
Qed.

Lemma tabulate_column (M : matrix F) :
  is_column M -> M = map (fun i => [entry M i 0]) (seq 0 (length M)).
Proof.
  intros HM. rewrite (list_tabulate M []) at 1.
  apply map_ext_in. intros i Hi%in_seq. unfold entry.
  assert (nth i M [] ∈ M) as Hin
    by (apply list_elem_of_In, nth_In; lia).
  unfold is_column in HM. rewrite Forall_forall in HM.
  specialize (HM _ Hin). by destruct (nth i M []) as [|e [|]].
Qed.

Lemma tabulate_rows (M : matrix F) (d : nat) :
  Forall (fun r => length r = d) M ->
  M = map (fun i => map (entry M i) (seq 0 d)) (seq 0 (length M)).
Proof.
  intros HM. rewrite (list_tabulate M []) at 1.
  apply map_ext_in. intros i Hi%in_seq. unfold entry.
  assert (nth i M [] ∈ M) as Hin
    by (apply list_elem_of_In, nth_In; lia).
  rewrite Forall_forall in HM. specialize (HM _ Hin).
  rewrite (list_tabulate (nth i M []) zero) at 1. by rewrite HM.
Qed.

Lemma zip_with_tabulated {A B C D} (g : B -> C -> D) (f1 : A -> B)
    (f2 : A -> C) (l : list A) :
  zip_with g (map f1 l) (map f2 l) = map (fun a => g (f1 a) (f2 a)) l.
Proof. induction l as [|a l IH]; simpl; [done|]. by rewrite IH. Qed.

Lemma dot_tabulated (f g : nat -> F) (n : nat) :
  dot (map f (seq 0 n)) (map g (seq 0 n))
  = sum_upto n (fun k => t_mul (f k) (g k)).
Proof. unfold dot, sum_upto. by rewrite zip_with_tabulated. Qed.

Lemma seq_not_nil (n : nat) : n <> 0%nat -> seq 0 n <> [].
Proof. by destruct n. Qed.

(** The expression of [gradientDescent] on tensors given by their
    entries. *)
Lemma gradient_tabulated (n d : nat) (fX : nat -> nat -> F)
    (fw fy : nat -> F) (lr : F) (X w y : matrix F) :
  n <> 0%nat ->
  X = map (fun i => map (fX i) (seq 0 d)) (seq 0 n) ->
  w = map (fun k => [fw k]) (seq 0 d) ->
  y = map (fun i => [fy i]) (seq 0 n) ->
  mzip t_sub w
    (mscalar t_mul
       (mscalar t_div
          (matMul (transpose X) (mzip t_sub (mmap t_sigmoid (matMul X w)) y))
          (of_nat (nrows X)))
       lr)
  = map (fun j =>
           [t_sub (fw j)
              (t_mul
                 (t_div
                    (sum_upto n (fun i =>
                       t_mul (fX i j)
                         (t_sub (t_sigmoid
                                   (sum_upto d (fun k =>
                                      t_mul (fX i k) (fw k))))
                                (fy i))))
                    (of_nat n))
                 lr)])
        (seq 0 d).
Proof.
  intros Hn EX Ew Ey.
  destruct (decide (d = 0%nat)) as [->|Hd]; [by rewrite Ew|].
  assert (nrows X = n) as -> by (by rewrite EX; unfold nrows;
                                  rewrite length_map, length_seq).
  assert (matMul X w
          = map (fun i => [sum_upto d (fun k => t_mul (fX i k) (fw k))])
                (seq 0 n)) as ->.
  { unfold matMul. rewrite Ew, transpose_singletons by (by apply seq_not_nil).
    rewrite EX, map_map. apply map_ext. intros i. simpl.
    by rewrite dot_tabulated. }
  unfold mmap. rewrite map_map. cbn [map].
  unfold mzip at 2. rewrite Ey, zip_with_tabulated. cbn [zip_with].
  assert (transpose X = map (fun j => map (fun i => fX i j) (seq 0 n))
                            (seq 0 d)) as ->.
  { unfold transpose.
    assert (ncols X = d) as ->.
    { rewrite EX. destruct n; [done|]. simpl.
      by rewrite length_map, length_seq. }
    apply map_ext_in. intros j Hj%in_seq. unfold column.
    rewrite EX, map_map. apply map_ext. intros i.
    apply nth_tabulate. lia. }
  unfold matMul. rewrite transpose_singletons by (by apply seq_not_nil).
  rewrite map_map. unfold mscalar. rewrite !map_map. cbn [map].
  unfold mzip. rewrite Ew, zip_with_tabulated. cbn [zip_with].
  apply map_ext. intros j. by rewrite dot_tabulated.
Qed.

(** C4. One [gradientDescent] call on a batch [X] of [n >= 1] rows with
    the label column [y], on a model whose weights [w] are a column with
    one entry for each column of [X], replaces the weights by
    [w - learningRate * (X^T * (sigmoid (X * w) - y)) / n]: the weight [j]
    becomes [w_j - learningRate * ((sum_i X_ij * (p_i - y_i)) / n)] with
    [p_i = sigmoid (sum_k X_ik * w_k)].  The code multiplies by the
    learning rate from the right; the product of the kernel commutes. *)
Theorem gradientDescent_formula h m o (lr : F) (X y : matrix F) :
  (forall a b : F, t_mul a b = t_mul b a) ->
  this_options h m = Some o -> learningRate o = Some lr ->
  X <> [] -> Forall (fun r => length r = length (weights m)) X ->
  is_column (weights m) ->
  length y = length X -> is_column y ->
  gradientDescent h m X y =
  Some (set_weights (updated_weights (weights m) lr X y) m).
Proof.
  intros Hcomm Ho Hlr HX Hrows Hw Hlen Hy.
  unfold gradientDescent. rewrite Ho. cbn [mbind option_bind].
  rewrite Hlr. cbn [mbind option_bind]. do 2 f_equal.
  assert (ncols X = length (weights m)) as Hd.
  { destruct X as [|r X']; [done|]. by inversion Hrows. }
  rewrite (gradient_tabulated (length X) (length (weights m)) (entry X)
             (fun k => entry (weights m) k 0) (fun i => entry y i 0) lr
             X (weights m) y).
  - unfold updated_weights, nrows. rewrite Hd.
    apply map_ext. intros j. by rewrite Hcomm.
  - by destruct X.
  - by apply tabulate_rows.
  - by apply tabulate_column.
  - rewrite <- Hlen. by apply tabulate_column.
Qed.
End Gradient.

(** ** The caller's options object over any number of [train] calls *)

Section SharedOptions.
Context {F : Type} `{Scalar F}.
Implicit Types (h : heap F) (m : Model F) (o : Options F).

Lemma rate_after_number (c : F) (cs : list F) (lr : option F) :
  to_number (rate_after (c :: cs) lr) = rate_of (c :: cs) (to_number lr).
Proof. by destruct cs. Qed.

(** One pass keeps the object at [l] in step with the cost history. *)
Lemma epoch_rate_after bq h m h' m' (l : loc) (lr : option F)
    (it bs : option Z) (db : option F) :
  epoch bq h m = Some (h', m') ->
  options m = Some l ->
  h !! l = Some (mkOptions (rate_after (costHistory m) lr) it bs db) ->
  options m' = Some l /\
  h' = <[l := mkOptions (rate_after (costHistory m') lr) it bs db]> h.
Proof.
  unfold epoch. intros E El Ho.
  destruct (batch_loop bq h m) as [m1|] eqn:E1; simpl in E; [|discriminate].
  destruct (batch_loop_frame _ _ _ _ E1) as [w ->].
  unfold recordCost in E.
  destruct (cost_of (set_weights w m)) as [c|] eqn:Ec; simpl in E;
    [|discriminate].
  unfold optimizeLearningRate in E. simpl in E.
  destruct (costHistory m) as [|previous older] eqn:Ecs; simpl in E.
  - injection E as <- <-. split; [done|]. simpl. by rewrite insert_id.
  - rewrite El in E. cbn [mbind option_bind] in E. rewrite Ho in E.
    cbn [mbind option_bind learningRate] in E.
    rewrite rate_after_number in E.
    destruct (js_gt c previous) eqn:Egt; injection E as <- <-;
      (split; [done|]); unfold set_learningRate;
      cbn [costHistory set_costHistory iterations batchSize decisionBoundary
           rate_after rate_of];
      by rewrite Egt.
Qed.

Lemma after_epochs_rate_after (k : nat) bq h m h' m' (l : loc)
    (lr : option F) (it bs : option Z) (db : option F) :
  after_epochs k bq h m = Some (h', m') ->
  options m = Some l ->
  h !! l = Some (mkOptions (rate_after (costHistory m) lr) it bs db) ->
  options m' = Some l /\
  h' = <[l := mkOptions (rate_after (costHistory m') lr) it bs db]> h.
Proof.
  intros E El Ho. revert h' m' E.
  induction k as [|k IH]; intros h' m'; simpl.
  - intros [= <- <-]. split; [done|]. by rewrite insert_id.
  - destruct (after_epochs k bq h m) as [[h1 m1]|] eqn:E1; simpl;
      [|discriminate].
    intros E. destruct (IH _ _ eq_refl) as [El1 Hh1].
    assert (h1 !! l =
            Some (mkOptions (rate_after (costHistory m1) lr) it bs db))
      as Ho1 by (rewrite Hh1; apply lookup_insert_eq).
    destruct (epoch_rate_after _ _ _ _ _ _ _ _ _ _ E El1 Ho1) as [El' ->].
    split; [done|]. rewrite Hh1 at 1. by rewrite insert_insert_eq.
Qed.

Lemma train_rate_after h m h' m' (l : loc) (lr : option F)
    (it bs : option Z) (db : option F) :
  train h m = Some (h', m') ->
  options m = Some l ->
  h !! l = Some (mkOptions (rate_after (costHistory m) lr) it bs db) ->
  options m' = Some l /\
  h' = <[l := mkOptions (rate_after (costHistory m') lr) it bs db]> h.
Proof.
  intros E El Ho.
  assert (this_options h m
          = Some (mkOptions (rate_after (costHistory m) lr) it bs db))
    as Hto by (unfold this_options; by rewrite El).
  rewrite (train_after_epochs _ _ _ Hto) in E.
  by apply (after_epochs_rate_after _ _ _ _ _ _ _ _ _ _ _ E El Ho).
Qed.

Lemma trains_rate_after (k : nat) h m h' m' (l : loc) o :
  trains k h m = Some (h', m') ->
  options m = Some l -> h !! l = Some o -> costHistory m = [] ->
  options m' = Some l /\
  h' = <[l := mkOptions (rate_after (costHistory m') (learningRate o))
                        (iterations o) (batchSize o) (decisionBoundary o)]> h.
Proof.
  intros E El Ho Hfresh. revert h' m' E.
  induction k as [|k IH]; intros h' m'; simpl.
  - intros [= <- <-]. split; [done|]. rewrite Hfresh. simpl.
    rewrite insert_id; [done|]. rewrite Ho. by destruct o.
  - destruct (trains k h m) as [[h1 m1]|] eqn:E1; simpl; [|discriminate].
    intros E. destruct (IH _ _ eq_refl) as [El1 Hh1].
    assert (h1 !! l =
            Some (mkOptions (rate_after (costHistory m1) (learningRate o))
                            (iterations o) (batchSize o)
                            (decisionBoundary o)))
      as Ho1 by (rewrite Hh1; apply lookup_insert_eq).
    destruct (train_rate_after _ _ _ _ _ _ _ _ _ E El1 Ho1) as [El' ->].
    split; [done|]. rewrite Hh1 at 1. by rewrite insert_insert_eq.
Qed.

(** C2, amended. The constructor stores the reference it is given, not a
    copy.  After any number of [train] calls on the constructed model,
    the model still points to the caller's object; [iterations],
    [batchSize] and [decisionBoundary] of that object are the caller's;
    its [learningRate] is the value the learning-rate controller wrote
    last, the one the recorded costs determine from the caller's rate
    (the caller's own while fewer than two costs are recorded); and no
    other object is touched. *)
Theorem train_shares_options h (x y : matrix F) (l : loc) o (k : nat) h' m' :
  h !! l = Some o ->
  trains k (constructor h x y (Some l)).1 (constructor h x y (Some l)).2
    = Some (h', m') ->
  options m' = Some l /\
  h' !! l = Some (mkOptions (rate_after (costHistory m') (learningRate o))
                            (iterations o) (batchSize o)
                            (decisionBoundary o)) /\
  this_options h' m' = h' !! l /\
  (forall l', l' <> l -> h' !! l' = h !! l').
Proof.
  intros Ho Ht.
  pose proof (constructor_model h x y (Some l)) as E.
  destruct (constructor h x y (Some l)) as [h0 m0] eqn:Ec. simpl in *.
  assert (h0 = h) as ->.
  { unfold constructor in Ec. rewrite preprocessFeatures_blank in Ec.
    by injection Ec as <- _. }
  destruct (trains_rate_after _ _ _ _ _ l o Ht) as [El ->];
    [by rewrite E|done|by rewrite E|].
  split; [done|]. split; [apply lookup_insert_eq|].
  split; [unfold this_options; by rewrite El|].
  intros l' Hl'. by apply lookup_insert_ne.
Qed.
End SharedOptions.

(** ** The run with a row behind the last batch, evaluated *)

Section PartialBatchFacts.
Import XReal.
#[local] Open Scope R_scope.

Lemma Q2R_literals :
  Q2R 0 = 0 /\ Q2R 1 = 1 /\ Q2R (-1) = -1 /\ Q2R 2 = 2 /\
  Q2R 0.5 = / 2 /\ Q2R 1.05 = 21 / 20 /\
  Q2R (inject_Z (Z.of_nat 3)) = 3 /\ Q2R (inject_Z (Z.of_nat 4)) = 4.
Proof.
  change (Z.of_nat 3) with 3%Z. change (Z.of_nat 4) with 4%Z.
  unfold Q2R. cbn. repeat split; lra.
Qed.

Ltac literals :=
  destruct Q2R_literals as (Q0 & Q1 & Qm1 & Q2 & Qh & Q105 & Qn3 & Qn4);
  rewrite ?Q0, ?Q1, ?Qm1, ?Q2, ?Qh, ?Q105, ?Qn3, ?Qn4;
  clear Q0 Q1 Qm1 Q2 Qh Q105 Qn3 Qn4.

Ltac logistic_bounds :=
  repeat match goal with
  | |- context [sg ?e] =>
      lazymatch goal with
      | _ : 0 < sg e |- _ => fail
      | _ => pose proof (sg_pos e); pose proof (sg_lt_1 e)
      end
  end.

Ltac settle_test :=
  match goal with
  | |- context [Req_dec_T ?a 0] =>
      destruct (Req_dec_T a 0); [exfalso; lra|]
  | |- context [Rlt_dec 0 ?a] =>
      destruct (Rlt_dec 0 a); [|exfalso; lra]
  end.

Ltac evaluate := cbn; literals; logistic_bounds; repeat (settle_test; cbn).

Ltac numbers_eq :=
  repeat lazymatch goal with
         | |- @eq R _ _ => fail
         | |- _ => f_equal
         end.

Lemma moments_partial : moments0 PartialBatch.x = ([Real 0], [Real 1]).
Proof. unfold moments0, PartialBatch.x. evaluate. numbers_eq; lra. Qed.

Lemma standardized_partial :
  standardized [Real 0] [Real 1] PartialBatch.x = PartialBatch.std_x.
Proof.
  unfold standardized, PartialBatch.x, PartialBatch.std_x. evaluate.
  rewrite Rpower_1_base. evaluate. numbers_eq; lra.
Qed.

Lemma constructor_partial (last : Q) :
  constructor PartialBatch.h0 PartialBatch.x (PartialBatch.y last)
              (Some 0%nat)
  = (PartialBatch.h0, PartialBatch.model (Q2R last) 0 0 []).
Proof.
  pose proof (constructor_model PartialBatch.h0 PartialBatch.x
                (PartialBatch.y last) (Some 0%nat)) as E.
  rewrite moments_partial in E. cbn [fst snd] in E.
  rewrite standardized_partial in E.
  destruct (constructor PartialBatch.h0 PartialBatch.x (PartialBatch.y last)
              (Some 0%nat)) as [h m] eqn:Ec.
  cbn [snd] in E. f_equal.
  - unfold constructor in Ec. rewrite preprocessFeatures_blank in Ec.
    by injection Ec as <- _.
  - rewrite E. unfold PartialBatch.model, PartialBatch.y, PartialBatch.std_y.
    cbn. literals. done.
Qed.

Lemma partial_this_options (h : heap xreal) o t a b c :
  h !! 0%nat = Some o -> this_options h (PartialBatch.model t a b c) = Some o.
Proof. done. Qed.

Lemma gradientDescent_partial (h : heap xreal) o r t a b c :
  h !! 0%nat = Some o -> learningRate o = Some (Real r) ->
  gradientDescent h (PartialBatch.model t a b c)
                  PartialBatch.batch_x PartialBatch.batch_y =
  Some (PartialBatch.model t (PartialBatch.step_a a b r)
                           (PartialBatch.step_b a b r) c).
Proof.
  intros Ho Hr. unfold gradientDescent.
  rewrite (partial_this_options _ _ _ _ _ _ Ho).
  cbn [mbind option_bind]. rewrite Hr. cbn [mbind option_bind].
  unfold PartialBatch.model, PartialBatch.step_a, PartialBatch.step_b,
    set_weights, PartialBatch.batch_x, PartialBatch.batch_y.
  cbn. literals.
  replace (1 * a + (-1 * b + 0)) with (a - b) by lra.
  replace (1 * a + (1 * b + 0)) with (a + b) by lra.
  settle_test. cbn. numbers_eq; lra.
Qed.

Lemma cost_of_partial t a b c :
  cost_of (PartialBatch.model t a b c) = Some (Real (PartialBatch.cost t a b)).
Proof.
  unfold cost_of, PartialBatch.model, PartialBatch.cost, PartialBatch.std_x,
    PartialBatch.std_y.
  cbn. literals.
  replace (1 * a + (-1 * b + 0)) with (a - b) by lra.
  replace (1 * a + (1 * b + 0)) with (a + b) by lra.
  replace (sg (a - b) * -1 + 1) with (1 - sg (a - b)) by lra.
  replace (sg (a + b) * -1 + 1) with (1 - sg (a + b)) by lra.
  logistic_bounds. repeat (settle_test; cbn). numbers_eq. field.
Qed.

(** One pass: one gradient step on the rows 0 to 2, the cost over all
    four rows, and then the learning-rate controller. *)
Lemma epoch_partial (h : heap xreal) o r t a b c :
  h !! 0%nat = Some o -> learningRate o = Some (Real r) ->
  batchSize o = Some 3%Z ->
  epoch (Fin 1) h (PartialBatch.model t a b c) =
  optimizeLearningRate h
    (PartialBatch.model t (PartialBatch.step_a a b r)
       (PartialBatch.step_b a b r)
       (Real (PartialBatch.cost t (PartialBatch.step_a a b r)
                                (PartialBatch.step_b a b r)) :: c)).
Proof.
  intros Ho Hr Hbs. unfold epoch. cbn [batch_loop].
  change (Z.to_nat 1) with 1%nat. cbn [batch_iter]. unfold batch_step.
  rewrite (partial_this_options _ _ _ _ _ _ Ho). cbn [mbind option_bind].
  rewrite Hbs. cbn [mbind option_bind].
  change (slice_rows (0 * 3) 3 (features (PartialBatch.model t a b c)))
    with (Some PartialBatch.batch_x).
  change (slice_rows (0 * 3) 3 (labels (PartialBatch.model t a b c)))
    with (Some PartialBatch.batch_y).
  cbn [mbind option_bind].
  rewrite (gradientDescent_partial _ _ _ _ _ _ _ Ho Hr).
  cbn [mbind option_bind].
  unfold recordCost. rewrite cost_of_partial. done.
Qed.

(** The sum of the weights stays 0 and their difference falls. *)
Lemma weights_partial :
  PartialBatch.a1 + PartialBatch.b1 = 0 /\
  PartialBatch.a1 - PartialBatch.b1 = - / 3 /\
  PartialBatch.a2 + PartialBatch.b2 = 0 /\
  PartialBatch.a2 - PartialBatch.b2 < PartialBatch.a1 - PartialBatch.b1.
Proof.
  assert (PartialBatch.a1 = - / 6 /\ PartialBatch.b1 = / 6) as [E1 E2].
  { unfold PartialBatch.a1, PartialBatch.b1, PartialBatch.step_a,
      PartialBatch.step_b.
    replace (0 - 0) with 0 by lra. replace (0 + 0) with 0 by lra.
    rewrite sg_0. lra. }
  split; [lra|]. split; [lra|].
  unfold PartialBatch.a2, PartialBatch.b2, PartialBatch.step_a,
    PartialBatch.step_b.
  rewrite E1, E2.
  replace (- / 6 + / 6) with 0 by lra. rewrite sg_0.
  pose proof (sg_pos (- / 6 - / 6)). lra.
Qed.

(** With the label 0 in the last row the second pass lowers the cost;
    with the label 1 it raises the cost. *)
Lemma cost_partial_falls :
  PartialBatch.cost 0 PartialBatch.a2 PartialBatch.b2
  < PartialBatch.cost 0 PartialBatch.a1 PartialBatch.b1.
Proof.
  destruct weights_partial as (S1 & D1 & S2 & D2).
  unfold PartialBatch.cost. rewrite S1, S2.
  set (d1 := PartialBatch.a1 - PartialBatch.b1) in *.
  set (d2 := PartialBatch.a2 - PartialBatch.b2) in *.
  assert (sg d2 < sg d1) by (by apply sg_increasing).
  pose proof (sg_lt_1 d1).
  assert (ln (1 - sg d1) < ln (1 - sg d2)) by (apply ln_increasing; lra).
  lra.
Qed.

Lemma cost_partial_rises :
  PartialBatch.cost 1 PartialBatch.a1 PartialBatch.b1
  < PartialBatch.cost 1 PartialBatch.a2 PartialBatch.b2.
Proof.
  destruct weights_partial as (S1 & D1 & S2 & D2).
  unfold PartialBatch.cost. rewrite S1, S2.
  set (d1 := PartialBatch.a1 - PartialBatch.b1) in *.
  set (d2 := PartialBatch.a2 - PartialBatch.b2) in *.
  assert (sg d2 < sg d1) by (by apply sg_increasing).
  assert (sg d1 < / 2) by (rewrite <- sg_0; apply sg_increasing; lra).
  pose proof (sg_pos d1). pose proof (sg_pos d2).
  assert (ln (sg d2 * (1 - sg d2)) < ln (sg d1 * (1 - sg d1))) as Hln.
  { apply ln_increasing; [|nra]. apply Rmult_lt_0_compat; lra. }
  rewrite !ln_mult in Hln by lra. lra.
Qed.

Lemma epoch1_partial t :
  epoch (Fin 1) PartialBatch.h0 (PartialBatch.model t 0 0 []) =
  Some (PartialBatch.h0,
        PartialBatch.model t PartialBatch.a1 PartialBatch.b1
          [Real (PartialBatch.cost t PartialBatch.a1 PartialBatch.b1)]).
Proof.
  rewrite (epoch_partial PartialBatch.h0 PartialBatch.caller_options 1);
    try done.
  unfold PartialBatch.caller_options. cbn. literals. done.
Qed.

Lemma epoch2_partial_up :
  epoch (Fin 1) PartialBatch.h0
    (PartialBatch.model 0 PartialBatch.a1 PartialBatch.b1
       [Real (PartialBatch.cost 0 PartialBatch.a1 PartialBatch.b1)]) =
  Some (PartialBatch.h_up,
        PartialBatch.model 0 PartialBatch.a2 PartialBatch.b2
          [Real (PartialBatch.cost 0 PartialBatch.a2 PartialBatch.b2);
           Real (PartialBatch.cost 0 PartialBatch.a1 PartialBatch.b1)]).
Proof.
  rewrite (epoch_partial PartialBatch.h0 PartialBatch.caller_options 1);
    try done.
  - unfold optimizeLearningRate.
    cbn -[PartialBatch.h0 PartialBatch.h_up PartialBatch.cost
          PartialBatch.step_a PartialBatch.step_b].
    fold PartialBatch.a2 PartialBatch.b2.
    change (PartialBatch.h0 !! 0%nat) with (Some PartialBatch.caller_options).
    cbn [mbind option_bind].
    pose proof cost_partial_falls.
    destruct (Rgt_dec _ _); [lra|].
    unfold PartialBatch.h_up, set_learningRate, PartialBatch.caller_options.
    cbn. literals. done.
  - unfold PartialBatch.caller_options. cbn. literals. done.
Qed.

Lemma epoch2_partial_down :
  epoch (Fin 1) PartialBatch.h0
    (PartialBatch.model 1 PartialBatch.a1 PartialBatch.b1
       [Real (PartialBatch.cost 1 PartialBatch.a1 PartialBatch.b1)]) =
  Some (PartialBatch.h_down,
        PartialBatch.model 1 PartialBatch.a2 PartialBatch.b2
          [Real (PartialBatch.cost 1 PartialBatch.a2 PartialBatch.b2);
           Real (PartialBatch.cost 1 PartialBatch.a1 PartialBatch.b1)]).
Proof.
  rewrite (epoch_partial PartialBatch.h0 PartialBatch.caller_options 1);
    try done.
  - unfold optimizeLearningRate.
    cbn -[PartialBatch.h0 PartialBatch.h_down PartialBatch.cost
          PartialBatch.step_a PartialBatch.step_b].
    fold PartialBatch.a2 PartialBatch.b2.
    change (PartialBatch.h0 !! 0%nat) with (Some PartialBatch.caller_options).
    cbn [mbind option_bind].
    pose proof cost_partial_rises.
    destruct (Rgt_dec _ _); [|lra].
    unfold PartialBatch.h_down, set_learningRate, PartialBatch.caller_options.
    cbn. literals.
    destruct (Req_dec_T 2 0); [exfalso; lra|]. done.
  - unfold PartialBatch.caller_options. cbn. literals. done.
Qed.

(** The third pass, at the rate [r] that the second pass left. *)
Lemma epoch3_partial (h : heap xreal) (r t : R) (c : list xreal) :
  h !! 0%nat = Some (mkOptions (Some (Real r)) (Some 3%Z) (Some 3%Z)
                               (Some (lit 0.5%Q))) ->
  exists h',
    epoch (Fin 1) h (PartialBatch.model t PartialBatch.a2 PartialBatch.b2 c)
    = Some (h',
            PartialBatch.model t
              (PartialBatch.step_a PartialBatch.a2 PartialBatch.b2 r)
              (PartialBatch.step_b PartialBatch.a2 PartialBatch.b2 r)
              (Real (PartialBatch.cost t
                       (PartialBatch.step_a PartialBatch.a2 PartialBatch.b2 r)
                       (PartialBatch.step_b PartialBatch.a2 PartialBatch.b2 r))
               :: c)).
Proof.
  intros Ho. rewrite (epoch_partial h _ r _ _ _ _ Ho); [|done|done].
  eapply optimizeLearningRate_returns. exact Ho.
Qed.

(** The whole run for either label of the last row: the weights after
    the three passes. *)
Lemma train_partial_up :
  exists h' c,
    train PartialBatch.h0 (PartialBatch.model 0 0 0 []) =
    Some (h',
          PartialBatch.model 0
            (PartialBatch.step_a PartialBatch.a2 PartialBatch.b2
                                 (1 * (21 / 20)))
            (PartialBatch.step_b PartialBatch.a2 PartialBatch.b2
                                 (1 * (21 / 20))) c).
Proof.
  rewrite (train_after_epochs _ _ PartialBatch.caller_options) by done.
  change (after_epochs _ _ PartialBatch.h0 (PartialBatch.model 0 0 0 []))
    with ('(h1, m1) ←
            ('(h2, m2) ←
               epoch (Fin 1) PartialBatch.h0 (PartialBatch.model 0 0 0 []);
             epoch (Fin 1) h2 m2);
          epoch (Fin 1) h1 m1).
  rewrite epoch1_partial. cbn [mbind option_bind].
  rewrite epoch2_partial_up. cbn [mbind option_bind].
  destruct (epoch3_partial PartialBatch.h_up (1 * (21 / 20)) 0
              [Real (PartialBatch.cost 0 PartialBatch.a2 PartialBatch.b2);
               Real (PartialBatch.cost 0 PartialBatch.a1 PartialBatch.b1)])
    as [h' E]; [done|].
  rewrite E. by eexists _, _.
Qed.

Lemma train_partial_down :
  exists h' c,
    train PartialBatch.h0 (PartialBatch.model 1 0 0 []) =
    Some (h',
          PartialBatch.model 1
            (PartialBatch.step_a PartialBatch.a2 PartialBatch.b2 (1 / 2))
            (PartialBatch.step_b PartialBatch.a2 PartialBatch.b2 (1 / 2)) c).
Proof.
  rewrite (train_after_epochs _ _ PartialBatch.caller_options) by done.
  change (after_epochs _ _ PartialBatch.h0 (PartialBatch.model 1 0 0 []))
    with ('(h1, m1) ←
            ('(h2, m2) ←
               epoch (Fin 1) PartialBatch.h0 (PartialBatch.model 1 0 0 []);
             epoch (Fin 1) h2 m2);
          epoch (Fin 1) h1 m1).
  rewrite epoch1_partial. cbn [mbind option_bind].
  rewrite epoch2_partial_down. cbn [mbind option_bind].
  destruct (epoch3_partial PartialBatch.h_down (1 / 2) 1
              [Real (PartialBatch.cost 1 PartialBatch.a2 PartialBatch.b2);
               Real (PartialBatch.cost 1 PartialBatch.a1 PartialBatch.b1)])
    as [h' E]; [done|].
  rewrite E. by eexists _, _.
Qed.

Lemma weights_partial_differ :
  PartialBatch.step_a PartialBatch.a2 PartialBatch.b2 (1 * (21 / 20))
  <> PartialBatch.step_a PartialBatch.a2 PartialBatch.b2 (1 / 2).
Proof.
  destruct weights_partial as (_ & _ & S2 & _).
  unfold PartialBatch.step_a. rewrite S2, sg_0.
  pose proof (sg_pos (PartialBatch.a2 - PartialBatch.b2)). lra.
Qed.

Lemma well_shaped_partial t a b c : well_shaped (PartialBatch.model t a b c).
Proof.
  unfold well_shaped, is_column. simpl.
  split; [done|]. split; [by repeat constructor|].
  split; [done|]. split; [by repeat constructor|done].
Qed.
End PartialBatchFacts.

(** ** The properties on the two training runs, continued *)

Section PartialBatchInstances.
Import XReal.

Lemma train_shares_options_witness :
  exists h' m',
    trains 2 (constructor Run.h0 Run.x Run.y (Some 0%nat)).1
             (constructor Run.h0 Run.x Run.y (Some 0%nat)).2
      = Some (h', m') /\
    options m' = Some 0%nat /\
    h' !! 0%nat = Some (mkOptions
                          (rate_after (costHistory m') (Some (lit 1%Q)))
                          (Some 2) (Some 2) (Some (lit 0.5%Q))) /\
    this_options h' m' = h' !! 0%nat /\
    (forall l', l' <> 0%nat -> h' !! l' = Run.h0 !! l').
Proof.
  assert (exists h' m',
            trains 2 (constructor Run.h0 Run.x Run.y (Some 0%nat)).1
                     (constructor Run.h0 Run.x Run.y (Some 0%nat)).2
            = Some (h', m')) as (h' & m' & E).
  { cbn [trains mbind option_bind]. rewrite constructed_train_run.
    cbn [mbind option_bind].
    destruct (after_epochs_shaped 2 Run.h2 Run.m2
                (mkOptions (Some (Real (1 * (21 / 20)))) (Some 2%Z)
                           (Some 2%Z) (Some (lit 0.5%Q)))
                (Real (1 * (21 / 20))) 2 eq_refl eq_refl eq_refl
                (Z.le_succ_diag_r 1) (well_shaped_run _ _ _))
      as (h' & m' & E & _).
    exists h', m'.
    by rewrite (train_after_epochs Run.h2 Run.m2 _ eq_refl). }
  exists h', m'. split; [exact E|].
  exact (train_shares_options Run.h0 Run.x Run.y 0%nat Run.caller_options
           2 h' m' eq_refl E).
Defined.

Lemma gradientDescent_formula_witness :
  gradientDescent PartialBatch.h0 (PartialBatch.model 0 0 0 [])
                  PartialBatch.batch_x PartialBatch.batch_y =
  Some (set_weights
          (updated_weights (weights (PartialBatch.model 0 0 0 []))
             (lit 1%Q) PartialBatch.batch_x PartialBatch.batch_y)
          (PartialBatch.model 0 0 0 [])).
Proof.
  apply (gradientDescent_formula PartialBatch.h0
           (PartialBatch.model 0 0 0 []) PartialBatch.caller_options
           (lit 1%Q)).
  - apply t_mul_comm.
  - reflexivity.
  - reflexivity.
  - discriminate.
  - repeat constructor.
  - repeat constructor.
  - reflexivity.
  - repeat constructor.
Defined.

Lemma epoch_batches_witness :
  epoch (Fin 1) PartialBatch.h0 (PartialBatch.model 0 0 0 []) =
  (m1 ← descend PartialBatch.h0 (PartialBatch.model 0 0 0 [])
         (batches 1 3 PartialBatch.std_x (PartialBatch.std_y 0));
   m2 ← recordCost m1; optimizeLearningRate PartialBatch.h0 m2) /\
  batches 1 3 PartialBatch.std_x (PartialBatch.std_y 0) =
  batches 1 3 (take 3 PartialBatch.std_x) (take 3 (PartialBatch.std_y 0)) /\
  length (batches 1 3 PartialBatch.std_x (PartialBatch.std_y 0)) = 1%nat /\
  (1 * 3 < length PartialBatch.std_x)%nat.
Proof.
  pose proof (epoch_batches 0 PartialBatch.h0 (PartialBatch.model 0 0 0 [])
                PartialBatch.caller_options (lit 1%Q) 3
                PartialBatch.h0 (PartialBatch.model 0 0 0 [])
                eq_refl eq_refl eq_refl
                (Z.le_trans 1 2 3 (Z.le_succ_diag_r 1) (Z.le_succ_diag_r 2))
                (well_shaped_partial 0 0 0 []) eq_refl)
    as (_ & _ & _ & _ & _ & Hepoch & Hlength & Htake).
  split; [exact Hepoch|]. split; [exact Htake|]. split; [exact Hlength|].
  simpl. lia.
Defined.

(** C7 as stated fails on the run with a row behind the last batch: the
    two label columns differ in that row only, which is in no batch, and
    [train] ends with other weights.  The cost is taken over all rows;
    with the one label the second pass lowers it and the controller
    raises the learning rate, with the other label the cost rises and
    the rate is halved, and the third gradient step is taken at that
    rate. *)
Lemma dropped_row_counterexample :
  floor_div (nrows PartialBatch.x) (batchSize PartialBatch.caller_options)
    = Fin 1 /\
  take (1 * 3) (PartialBatch.y 0) = take (1 * 3) (PartialBatch.y 1) /\
  exists h1 m1 h2 m2,
    train (constructor PartialBatch.h0 PartialBatch.x (PartialBatch.y 0)
                       (Some 0%nat)).1
          (constructor PartialBatch.h0 PartialBatch.x (PartialBatch.y 0)
                       (Some 0%nat)).2 = Some (h1, m1) /\
    train (constructor PartialBatch.h0 PartialBatch.x (PartialBatch.y 1)
                       (Some 0%nat)).1
          (constructor PartialBatch.h0 PartialBatch.x (PartialBatch.y 1)
                       (Some 0%nat)).2 = Some (h2, m2) /\
    weights m1 <> weights m2.
Proof.
  split; [done|]. split; [done|].
  destruct train_partial_up as (h1 & c1 & E1).
  destruct train_partial_down as (h2 & c2 & E2).
  assert (Q2R 0 = 0%R /\ Q2R 1 = 1%R) as [Q0 Q1]
    by (unfold Q2R; simpl; split; lra).
  eexists h1, _, h2, _.
  rewrite !constructor_partial, Q0, Q1. cbn [fst snd].
  split; [exact E1|]. split; [exact E2|].
  cbn [weights PartialBatch.model].
  intros E. injection E as E _. by apply weights_partial_differ.
Qed.
End PartialBatchInstances.
